(** * preprocess.py: Sentence Sampler, Gold Span Locator, Batch Orchestrator

    A shallow embedding of [PreProcessor._apply_sample_article],
    [PreProcessor._apply_find_gold_span] and the two [parallel_*] drivers of
    [src/preprocess.py], followed by the properties of the specification that
    concern them.

    Conventions of the embedding:
    - a Python [str] is the list of its code points ([N]); a token list is a
      [list str];
    - a pandas row is a finite map from column names to values;
    - Python exceptions are the [Raise] results of an error monad;
    - similarity scores are rationals ([Q]); [== 1.0], [== 0] and [> 0] are
      the exact comparisons of [Q];
    - [max_token_len] is a token count ([nat]). *)

From Stdlib Require Import ZArith QArith List Lia Bool.
From stdpp Require Import base list gmap strings sorting.

Open Scope nat_scope.

(** ** Python values *)

Definition str := list N.

(** The sentence boundary marker, U+3002. *)
Definition MARKER : N := 12290%N.

(** [''.join(tokens)] *)
Definition join (tokens : list str) : str := concat tokens.

(** Code points removed by [str.strip()]. *)
Definition is_space (c : N) : bool :=
  ((9 <=? c) && (c <=? 13) || (28 <=? c) && (c <=? 32) || (c =? 133)
   || (c =? 160) || (c =? 5760) || (8192 <=? c) && (c <=? 8202)
   || (c =? 8232) || (c =? 8233) || (c =? 8239) || (c =? 8287)
   || (c =? 12288))%N.

Fixpoint lstrip (s : str) : str :=
  match s with
  | c :: s' => if is_space c then lstrip s' else s
  | [] => []
  end.

Definition strip (s : str) : str := rev (lstrip (rev (lstrip s))).

Fixpoint prefixb (p s : str) : bool :=
  match p, s with
  | [], _ => true
  | _ :: _, [] => false
  | a :: p', b :: s' => (a =? b)%N && prefixb p' s'
  end.

(** [p in s] on strings: [p] occurs in [s] as a substring. *)
Fixpoint substrb (p s : str) : bool :=
  prefixb p s || match s with [] => false | _ :: s' => substrb p s' end.

(** [l[a:b]] for [0 <= a], [0 <= b]. *)
Definition slice {A} (a b : nat) (l : list A) : list A := firstn (b - a) (skipn a l).

(** [range(a, b)] *)
Definition py_range (a b : Z) : list Z :=
  map (fun k => (a + Z.of_nat k)%Z) (seq 0 (Z.to_nat (b - a))).

(** [enumerate(l)] *)
Definition enumerate {A} (l : list A) : list (nat * A) := zip (seq 0 (length l)) l.

(** ** Exceptions *)

Inductive exn := KeyError | IndexError | TypeError | ValueError.

Inductive result (A : Type) :=
  | Ok (a : A)
  | Raise (e : exn).
Arguments Ok {A} a.
Arguments Raise {A} e.

#[global] Instance result_ret : MRet result := fun A a => Ok a.
#[global] Instance result_bind : MBind result := fun A B f m =>
  match m with
  | Ok a => f a
  | Raise e => Raise e
  end.

(** Position denoted by a Python index [i] in a sequence of length [n]. *)
Definition py_index (n : nat) (i : Z) : option nat :=
  let j := if (i <? 0)%Z then (i + Z.of_nat n)%Z else i in
  if (0 <=? j)%Z && (j <? Z.of_nat n)%Z then Some (Z.to_nat j) else None.

(** [l[i]] *)
Definition py_getitem {A} (l : list A) (i : Z) : result A :=
  match py_index (length l) i with
  | Some j => match l !! j with Some x => Ok x | None => Raise IndexError end
  | None => Raise IndexError
  end.

(** [l[i] = x] *)
Definition py_setitem {A} (l : list A) (i : Z) (x : A) : result (list A) :=
  match py_index (length l) i with
  | Some j => Ok (<[j := x]> l)
  | None => Raise IndexError
  end.

(** ** Rows *)

Inductive value :=
  | VInt (z : Z)
  | VStr (s : str)
  | VStrs (l : list str)
  | VInts (l : list Z)
  | VFloats (l : list Q).

Abbreviation Row := (gmap string value).

(** [row[col]] read as a token list. *)
Definition get_strs (row : Row) (col : string) : result (list str) :=
  match row !! col with
  | Some (VStrs l) => Ok l
  | Some _ => Raise TypeError
  | None => Raise KeyError
  end.

(** ** numpy *)

Definition Qlt_bool (x y : Q) : bool := negb (Qle_bool y x).

Definition qmax (x y : Q) : Q := if Qle_bool x y then y else x.

(** Insertion of index [i] behind every index whose key is not greater. *)
Fixpoint insert_idx (key : nat -> Q) (i : nat) (l : list nat) : list nat :=
  match l with
  | [] => [i]
  | j :: l' => if Qle_bool (key j) (key i) then j :: insert_idx key i l' else i :: j :: l'
  end.

(** [np.argsort(a)]: the indices of [a] in ascending order of their values.
    numpy's default sort finishes short arrays (and short partitions) by
    insertion sort, which leaves equal values in index order; that is the
    order taken here. *)
Definition argsort (a : list Q) : list nat :=
  fold_left (fun sorted i => insert_idx (fun k => nth k a 0%Q) i sorted) (seq 0 (length a)) [].

(** [list(reversed(np.argsort(a)))] *)
Definition argsort_desc (a : list Q) : list nat := rev (argsort a).

(** [np.argmax(a)]: the first index holding the maximum. *)
Fixpoint argmax_from (best : nat) (bv : Q) (i : nat) (a : list Q) : nat :=
  match a with
  | [] => best
  | x :: a' => if Qlt_bool bv x then argmax_from i x (S i) a' else argmax_from best bv (S i) a'
  end.

Definition argmax (a : list Q) : nat :=
  match a with
  | [] => 0
  | x :: a' => argmax_from 0 x 1 a'
  end.

(** ** The similarity scorer (utils.rouge.RougeL) *)

(** The three per-instance series of the accumulator. *)
Record RougeL := mkRougeL {
  inst_scores : list Q;
  r_scores : list Q;
  p_scores : list Q
}.

Definition RougeL_new : RougeL := mkRougeL [] [] [].

(** What one [add_inst(cand, ref)] computes: the overall similarity, the
    recall against the reference and the precision of the candidate. *)
Record Scorer := mkScorer {
  similarity : str -> str -> Q;
  recall : str -> str -> Q;
  precision : str -> str -> Q
}.

Definition add_inst (sc : Scorer) (rl : RougeL) (cand ref : str) : RougeL :=
  mkRougeL (inst_scores rl ++ [similarity sc cand ref])
           (r_scores rl ++ [recall sc cand ref])
           (p_scores rl ++ [precision sc cand ref]).

Fixpoint lcs (a b : str) : nat :=
  match a with
  | [] => 0
  | x :: a' =>
      (fix inner (b : str) : nat :=
         match b with
         | [] => 0
         | y :: b' =>
             if (x =? y)%N then S (lcs a' b')
             else Nat.max (lcs a' b) (inner b')
         end) b
  end.

Definition ratio (k n : nat) : Q :=
  if n =? 0 then 0%Q else (Z.of_nat k # Pos.of_nat n)%Q.

(** Modelled from the spec: utils/rouge.py (class RougeL) is not among the
    sources.  The specification describes it as an LCS-based scorer giving,
    per instance, an overall similarity, a reference-recall-oriented score and
    a candidate-precision-oriented score, all in [0,1].  Here: precision and
    recall are the LCS length over the candidate's and the reference's length,
    and the similarity is their harmonic mean.  It only instantiates the
    general statements at concrete inputs. *)
Definition rouge_lcs : Scorer :=
  let p c r := ratio (lcs c r) (length c) in
  let rc c r := ratio (lcs c r) (length r) in
  mkScorer
    (fun c r => if Qeq_bool (p c r) 0 || Qeq_bool (rc c r) 0 then 0%Q
                else Qred ((2 # 1) * p c r * rc c r / (p c r + rc c r))%Q)
    rc p.

(** ** Loops with [break] *)

Inductive ctl (S : Type) :=
  | Continue (s : S)
  | Break (s : S).
Arguments Continue {S} s.
Arguments Break {S} s.

(** [for i in its: body], where the body may [break]. *)
Fixpoint for_loop {I S} (body : S -> I -> ctl S) (its : list I) (s : S) : S :=
  match its with
  | [] => s
  | i :: rest =>
      match body s i with
      | Continue s' => for_loop body rest s'
      | Break s' => s'
      end
  end.

(** ** The Sentence Sampler ([_sample_article]) *)

Record split_state := mkSplit {
  sentences : list (list str);
  sentences_f : list (list str);
  cur_s : list str;
  cur_s_f : list str;
  rl : RougeL
}.

(** [l[-1] = x] on a non-empty list. *)
Definition set_last {A} (l : list A) (x : A) : list A := <[pred (length l) := x]> l.

(** [if rl.p_scores[-1] == 1.0: rl.r_scores[-1] = 1.0] *)
Definition force_recall (rl : RougeL) : RougeL :=
  match last (p_scores rl) with
  | Some p =>
      if Qeq_bool p 1 then mkRougeL (inst_scores rl) (set_last (r_scores rl) 1%Q) (p_scores rl)
      else rl
  | None => rl
  end.

(** One iteration of the splitting loop (lines 250-263). *)
Definition split_step (sc : Scorer) (n_tokens : nat) (question : str)
    (st : split_state) (it : nat * (str * str)) : split_state :=
  let '(idx, (token, flag)) := it in
  let cur := cur_s st ++ [token] in
  let cur_f := cur_s_f st ++ [flag] in
  if substrb token [MARKER] || (Z.of_nat idx =? Z.of_nat n_tokens - 1)%Z then
    if 2 <=? length cur then
      mkSplit (sentences st ++ [cur]) (sentences_f st ++ [cur_f]) [] []
              (force_recall (add_inst sc (rl st) (join cur) question))
    else mkSplit (sentences st) (sentences_f st) [] [] (rl st)
  else mkSplit (sentences st) (sentences_f st) cur cur_f (rl st).

Definition split_sentences (sc : Scorer) (article_tokens article_flags : list str)
    (question : str) : split_state :=
  fold_left (split_step sc (length article_tokens) question)
            (enumerate (zip article_tokens article_flags))
            (mkSplit [] [] [] [] RougeL_new).

(** [pos in [0, 1, len(sentences) - 1, len(sentences) - 2]] *)
Definition is_boundary_pos (n pos : nat) : bool :=
  existsb (Z.eqb (Z.of_nat pos)) [0; 1; Z.of_nat n - 1; Z.of_nat n - 2]%Z.

Definition block_multipliers : list Q := [1#2; 9#10; 1; 1; 9#10; 1#2; 4#10]%Q.

(** One iteration of the spreading loop (lines 274-286). *)
Definition spread_step (n : nat) (scores : list Q) (arg_sorted : list nat)
    (s_rank : list Q) (i : nat) : ctl (list Q) :=
  if n <=? i then Break s_rank
  else
    let pos := nth i arg_sorted 0 in
    let score := nth pos scores 0%Q in
    if is_boundary_pos n pos || Qeq_bool score 0 then Continue s_rank
    else
      let block := slice (pos - 2) (pos + 5) s_rank in
      let block_scores := firstn (length block) (map (fun m => (m * score)%Q) block_multipliers) in
      let block_scores := zip_with qmax block_scores block in
      Continue (firstn (pos - 2) s_rank ++ block_scores ++ skipn (pos + 5) s_rank).

Definition spread (n : nat) (scores : list Q) : list Q :=
  for_loop (spread_step n scores (argsort_desc scores)) (seq 0 10) (repeat 0%Q n).

(** [flag[0], flag[1], flag[-1], flag[-2] = 1, 1, 1, 1] *)
Definition force_keep (flag : list nat) : result (list nat) :=
  flag ← py_setitem flag 0 1;
  flag ← py_setitem flag 1 1;
  flag ← py_setitem flag (-1) 1;
  py_setitem flag (-2) 1.

(** [len(sentences[0]) + len(sentences[1]) + len(sentences[-1]) + len(sentences[-2])] *)
Definition force_kept_len (sentences : list (list str)) : result nat :=
  s0 ← py_getitem sentences 0;
  s1 ← py_getitem sentences 1;
  sl ← py_getitem sentences (-1);
  sm ← py_getitem sentences (-2);
  mret (length s0 + length s1 + length sl + length sm).

(** One iteration of the greedy loop (lines 293-299). *)
Definition greedy_step (sentences : list (list str)) (s_rank : list Q) (max_token_len : nat)
    (st : list nat * nat) (pos : nat) : ctl (list nat * nat) :=
  let '(flag, cur_len) := st in
  if cur_len <? max_token_len then
    if Qlt_bool 0 (nth pos s_rank 0%Q) then
      Continue (<[pos := 1]> flag, cur_len + length (nth pos sentences []))
    else Continue (flag, cur_len)
  else Break (flag, cur_len).

Definition greedy (sentences : list (list str)) (s_rank : list Q) (max_token_len : nat)
    (rank : list nat) (flag : list nat) (cur_len : nat) : list nat * nat :=
  for_loop (greedy_step sentences s_rank max_token_len) rank (flag, cur_len).

(** The assembling loop (lines 301-304). *)
Definition assemble_step (sentences sentences_f : list (list str)) (flag : list nat)
    (st : list str * list str) (i : nat) : list str * list str :=
  if negb (nth i flag 0 =? 0) then
    (st.1 ++ nth i sentences [], st.2 ++ nth i sentences_f [])
  else st.

Definition assemble (sentences sentences_f : list (list str)) (flag : list nat)
    : list str * list str :=
  fold_left (assemble_step sentences sentences_f flag) (seq 0 (length flag)) ([], []).

Definition sample_article (sc : Scorer) (row : Row)
    (article_tokens_col article_flags_col question_tokens_col : string)
    (max_token_len : nat) : result Row :=
  article_tokens ← get_strs row article_tokens_col;
  article_flags ← get_strs row article_flags_col;
  question_tokens ← get_strs row question_tokens_col;
  if length article_tokens <=? max_token_len then Ok row
  else
    let question := join question_tokens in
    let st := split_sentences sc article_tokens article_flags question in
    if negb (substrb [MARKER] (join article_tokens)) then
      s0 ← py_getitem (sentences st) 0;
      f0 ← py_getitem (sentences_f st) 0;
      Ok (<[article_flags_col := VStrs f0]> (<[article_tokens_col := VStrs s0]> row))
    else
      let scores := r_scores (rl st) in
      let n := length (sentences st) in
      let s_rank := spread n scores in
      let rank := argsort_desc s_rank in
      flag ← force_keep (repeat 0 n);
      cur_len ← force_kept_len (sentences st);
      let '(flag, _) := greedy (sentences st) s_rank max_token_len rank flag cur_len in
      let '(cand, cand_f) := assemble (sentences st) (sentences_f st) flag in
      Ok (<[article_flags_col := VStrs (firstn max_token_len cand_f)]>
            (<[article_tokens_col := VStrs (firstn max_token_len cand)]> row)).

(** ** The Gold Span Locator ([_find_golden_span]) *)

Record locate_state := mkLocate {
  star_spans : list Z;
  end_spans : list Z;
  rl_ans : RougeL;
  rl_q : RougeL;
  rl_q_idx : list nat
}.

(** [set(s)] *)
Definition char_set (s : str) : gset N := list_to_set s.

(** [len(s1.intersection(s2)) / mlen if mlen != 0 else 0.0] *)
Definition iou (s1 s2 : gset N) : Q :=
  let mlen := Nat.max (size s1) (size s2) in
  if negb (mlen =? 0) then (Z.of_nat (size (s1 ∩ s2)) # Pos.of_nat mlen)%Q else 0%Q.

(** [''.join(article_tokens[i:i + t_len]).strip()] *)
Definition cand_text (article_tokens : list str) (i t_len : Z) : str :=
  strip (join (slice (Z.to_nat i) (Z.to_nat (i + t_len)) article_tokens)).

(** [''.join(article_tokens[max(i - 7, 0):i + t_len + 3]).strip()] *)
Definition ctx_text (article_tokens : list str) (i t_len : Z) : str :=
  strip (join (slice (Z.to_nat (Z.max (i - 7) 0)) (Z.to_nat (i + t_len + 3)) article_tokens)).

(** [iou >= 0.25] for the candidate text against the answer text. *)
Definition passes_prefilter (cand_ans ground_ans : str) : bool :=
  Qle_bool (1 # 4) (iou (char_set cand_ans) (char_set ground_ans)).

(** The body of the inner loop (lines 357-372). *)
Definition locate_step (sc : Scorer) (article_tokens : list str) (ground_ans questrin_str : str)
    (i : Z) (st : locate_state) (t_len : Z) : locate_state :=
  let len_p := Z.of_nat (length article_tokens) in
  if (t_len <=? 0)%Z || (i + t_len >? len_p)%Z then st
  else
    let cand_ans := cand_text article_tokens i t_len in
    if passes_prefilter cand_ans ground_ans then
      let rl := add_inst sc (rl_ans st) cand_ans ground_ans in
      let em :=
        match last (inst_scores rl) with
        | Some s => Qeq_bool s 1
        | None => false
        end in
      mkLocate (star_spans st ++ [i]) (end_spans st ++ [(i + t_len - 1)%Z]) rl
        (if em then add_inst sc (rl_q st) (ctx_text article_tokens i t_len) questrin_str
         else rl_q st)
        (if em then rl_q_idx st ++ [length (star_spans st)] else rl_q_idx st)
    else st.

(** The two nested loops (lines 355-372). *)
Definition locate_scan (sc : Scorer) (article_tokens : list str) (len_a : Z)
    (ground_ans questrin_str : str) : locate_state :=
  let len_p := Z.of_nat (length article_tokens) in
  fold_left
    (fun st i =>
       fold_left (locate_step sc article_tokens ground_ans questrin_str i)
                 (py_range (len_a - 2) (len_a + 3)) st)
    (py_range 0 (len_p - len_a + 1))
    (mkLocate [] [] RougeL_new RougeL_new []).

(** [(score == 1.0).sum()] *)
Definition em_count (scores : list Q) : nat :=
  length (filter (fun s => Qeq_bool s 1 = true) scores).

Definition find_golden_span (sc : Scorer) (row : Row)
    (article_tokens_col question_tokens_col answer_tokens_col : string) : result Row :=
  article_tokens ← get_strs row article_tokens_col;
  question_tokens ← get_strs row question_tokens_col;
  answer_tokens ← get_strs row answer_tokens_col;
  let row := <["answer_token_start" := VInt (-1)]> row in
  let row := <["answer_token_end" := VInt (-1)]> row in
  let row := <["delta_token_starts" := VInts []]> row in
  let row := <["delta_token_ends" := VInts []]> row in
  let row := <["delta_rouges" := VFloats []]> row in
  let ground_ans := strip (join answer_tokens) in
  let questrin_str := strip (join question_tokens) in
  let len_a := Z.of_nat (length answer_tokens) in
  let st := locate_scan sc article_tokens len_a ground_ans questrin_str in
  if length (star_spans st) =? 0 then Ok row
  else
    best_idx ←
      (if em_count (inst_scores (rl_ans st)) <=? 1 then Ok (argmax (inst_scores (rl_ans st)))
       else py_getitem (rl_q_idx st) (Z.of_nat (argmax (r_scores (rl_q st)))));
    s ← py_getitem (star_spans st) (Z.of_nat best_idx);
    e ← py_getitem (end_spans st) (Z.of_nat best_idx);
    let row := <["answer_token_start" := VInt s]> row in
    let row := <["answer_token_end" := VInt e]> row in
    let row := <["delta_token_starts" := VInts (star_spans st)]> row in
    let row := <["delta_token_ends" := VInts (end_spans st)]> row in
    let row := <["delta_rouges" := VFloats (inst_scores (rl_ans st))]> row in
    Ok row.

(** ** The Batch Orchestrator ([parallel_sample_article], [parallel_find_gold_span]) *)

(** A table: its rows in order, each with its index label. *)
Abbreviation DataFrame := (list (Z * Row)).

(** [df.apply(f, axis=1)]: the row-wise map; the first exception ends it. *)
Fixpoint df_apply (f : Row -> result Row) (df : DataFrame) : result DataFrame :=
  match df with
  | [] => Ok []
  | (ix, row) :: rest =>
      row' ← f row;
      rest' ← df_apply f rest;
      Ok ((ix, row') :: rest')
  end.

Definition apply_sample_article (sc : Scorer) (df : DataFrame)
    (article_tokens_col article_flags_col question_tokens_col : string)
    (max_token_len : nat) : result DataFrame :=
  df_apply (fun row => sample_article sc row article_tokens_col article_flags_col
                         question_tokens_col max_token_len) df.

Definition apply_find_gold_span (sc : Scorer) (sample_df : DataFrame)
    (article_tokens_col question_tokens_col answer_tokens_col : string) : result DataFrame :=
  df_apply (fun row => find_golden_span sc row article_tokens_col question_tokens_col
                         answer_tokens_col) sample_df.

(** Consecutive chunks of the given sizes. *)
Fixpoint chunks {A} (sizes : list nat) (l : list A) : list (list A) :=
  match sizes with
  | [] => []
  | k :: sizes' => firstn k l :: chunks sizes' (skipn k l)
  end.

(** [np.array_split(df, sections)]: [len % sections] parts of
    [len // sections + 1] rows, then the rest of [len // sections] rows. *)
Definition array_split {A} (l : list A) (sections : nat) : result (list (list A)) :=
  if sections =? 0 then Raise ValueError
  else
    let each := length l / sections in
    let extras := length l mod sections in
    Ok (chunks (repeat (each + 1) extras ++ repeat each (sections - extras)) l).

(** [p.map(f, parts)]: one result per part, in the order of the parts; an
    exception in a worker is raised in the caller.  When several workers fail
    the one reported here is the first in the order of the parts. *)
Fixpoint pool_map {A B} (f : A -> result B) (parts : list A) : result (list B) :=
  match parts with
  | [] => Ok []
  | x :: rest =>
      y ← f x;
      ys ← pool_map f rest;
      Ok (y :: ys)
  end.

(** [pd.concat(pool_results, axis=0)] *)
Definition pd_concat (parts : list DataFrame) : DataFrame := concat parts.

(** [parallel_sample_article]; [merge] is [pd.merge(..., how='inner',
    on=['article_id'])] and [n_cpu] is [mp.cpu_count()]. *)
Definition parallel_sample_article (sc : Scorer) (merge : DataFrame -> DataFrame -> DataFrame)
    (n_cpu : nat) (article_df qa_df : DataFrame) (max_token_len : nat) : result DataFrame :=
  let sample_df := merge article_df qa_df in
  split_dfs ← array_split sample_df n_cpu;
  pool_results ←
    pool_map (fun part => apply_sample_article sc part "article_tokens" "article_flags"
                            "question_tokens" max_token_len) split_dfs;
  Ok (pd_concat pool_results).

Definition parallel_find_gold_span (sc : Scorer) (n_cpu : nat) (sample_df : DataFrame)
    : result DataFrame :=
  split_dfs ← array_split sample_df n_cpu;
  pool_results ←
    pool_map (fun part => apply_find_gold_span sc part "article_tokens" "question_tokens"
                            "answer_tokens") split_dfs;
  Ok (pd_concat pool_results).

(** [pd.merge(article_df, qa_df, how='inner', on=['article_id'])] for tables
    that share no other column and whose article ids are unique in
    [article_df]: every pair of rows with the same id, in the order of the
    articles and then of the questions, under a fresh index. *)
Definition same_id (a b : Row) : bool :=
  match a !! "article_id", b !! "article_id" with
  | Some (VInt x), Some (VInt y) => (x =? y)%Z
  | Some (VStr x), Some (VStr y) => bool_decide (x = y)
  | _, _ => false
  end.

Definition inner_join (article_df qa_df : DataFrame) : DataFrame :=
  let joined :=
    flat_map (fun a => map (fun qa => a.2 ∪ qa.2)
                           (filter (fun qa => same_id a.2 qa.2 = true) qa_df))
             article_df in
  zip (map Z.of_nat (seq 0 (length joined))) joined.

(** ** Concrete rows *)

Definition tk (l : list N) : list str := map (fun c => [c]) l.

(** A row with the three columns the Sampler reads. *)
Definition sample_row (tokens flags question : list str) : Row :=
  <["question_tokens" := VStrs question]>
    (<["article_flags" := VStrs flags]> (<["article_tokens" := VStrs tokens]> ∅)).

(** A labeled row. *)
Definition labeled_row (tokens question answer : list str) : Row :=
  <["answer_tokens" := VStrs answer]>
    (<["question_tokens" := VStrs question]> (<["article_tokens" := VStrs tokens]> ∅)).

(** ** Notions used in the statements *)





(** The article of five two-token sentences used in the examples; the third
    sentence holds the question's only token. *)
Definition five_sentences : list str :=
  tk [1; MARKER; 2; MARKER; 7; MARKER; 3; MARKER; 4; MARKER]%N.

Definition five_flags : list str := tk [5; 6; 5; 6; 5; 6; 5; 6; 5; 6]%N.

(** The candidate spans of the Locator, as (start, length) pairs in the
    order of generation: every start [i] in [0, len_p - len_a] with every
    length [t] in [len_a - 2, len_a + 2]. *)
Definition candidates (len_p len_a : Z) : list (Z * Z) :=
  flat_map (fun i => map (pair i) (py_range (len_a - 2) (len_a + 3)))
           (py_range 0 (len_p - len_a + 1)).

(** A candidate of positive length that ends inside the article. *)
Definition in_bounds (len_p : Z) (c : Z * Z) : bool :=
  negb ((c.2 <=? 0)%Z || (c.1 + c.2 >? len_p)%Z).

(** A candidate that is in bounds and passes the prefilter. *)
Definition survives (article : list str) (ground : str) (c : Z * Z) : bool :=
  in_bounds (Z.of_nat (length article)) c && passes_prefilter (cand_text article c.1 c.2) ground.

(** The surviving candidates, in the order of generation. *)
Definition survivors (article : list str) (len_a : Z) (ground : str) : list (Z * Z) :=
  filter (fun c => survives article ground c = true)
         (candidates (Z.of_nat (length article)) len_a).

(** Similarity of a candidate's text to the answer text. *)
Definition sim_of (sc : Scorer) (article : list str) (ground : str) (c : Z * Z) : Q :=
  similarity sc (cand_text article c.1 c.2) ground.

(** Recall of the question text in a candidate's context window. *)
Definition ctx_of (sc : Scorer) (article : list str) (question : str) (c : Z * Z) : Q :=
  recall sc (ctx_text article c.1 c.2) question.

(** The exact matches among [svs], each with its position in [svs]. *)
Definition exacts (sc : Scorer) (article : list str) (ground : str) (svs : list (Z * Z))
    : list (nat * (Z * Z)) :=
  filter (fun kc => Qeq_bool (sim_of sc article ground kc.2) 1 = true) (enumerate svs).

(** The Locator's loop state once the survivors [svs] have been recorded. *)
Definition state_of (sc : Scorer) (article : list str) (ground question : str)
    (svs : list (Z * Z)) : locate_state :=
  let ex := exacts sc article ground svs in
  mkLocate (map fst svs) (map (fun c => (c.1 + c.2 - 1)%Z) svs)
    (mkRougeL (map (sim_of sc article ground) svs)
              (map (fun c => recall sc (cand_text article c.1 c.2) ground) svs)
              (map (fun c => precision sc (cand_text article c.1 c.2) ground) svs))
    (mkRougeL (map (fun kc => similarity sc (ctx_text article kc.2.1 kc.2.2) question) ex)
              (map (fun kc => ctx_of sc article question kc.2) ex)
              (map (fun kc => precision sc (ctx_text article kc.2.1 kc.2.2) question) ex))
    (map fst ex).

(** The five fields the Locator writes. *)
Definition write_span (row : Row) (s e : Z) (starts ends : list Z) (rouges : list Q) : Row :=
  <["delta_rouges" := VFloats rouges]>
    (<["delta_token_ends" := VInts ends]>
       (<["delta_token_starts" := VInts starts]>
          (<["answer_token_end" := VInt e]> (<["answer_token_start" := VInt s]> row)))).

(** A labeled row whose answer occurs twice in the article. *)
Definition twice_row : Row :=
  labeled_row (tk [1; 2; 3; 4; 1; 2; 7; 8]%N) (tk [7; 8]%N) (tk [1; 2]%N).

(** Two articles and three questions. *)
Definition example_articles : DataFrame :=
  [(0%Z, <["article_id" := VInt 1]>
           (<["article_flags" := VStrs five_flags]>
              (<["article_tokens" := VStrs five_sentences]> ∅)));
   (1%Z, <["article_id" := VInt 2]>
           (<["article_flags" := VStrs (tk [5; 5; 6]%N)]>
              (<["article_tokens" := VStrs (tk [1; 2; MARKER]%N)]> ∅)))].

Definition example_questions : DataFrame :=
  [(0%Z, <["article_id" := VInt 1]>
           (<["answer_tokens" := VStrs [[2%N]]]> (<["question_tokens" := VStrs [[7%N]]]> ∅)));
   (1%Z, <["article_id" := VInt 2]>
           (<["answer_tokens" := VStrs [[1%N]]]> (<["question_tokens" := VStrs [[2%N]]]> ∅)));
   (2%Z, <["article_id" := VInt 1]>
           (<["answer_tokens" := VStrs [[3%N]]]> (<["question_tokens" := VStrs [[4%N]]]> ∅)))].

(** The indices whose flag is set, in increasing order. *)
Definition selected (flag : list nat) : list nat :=
  filter (fun i => nth i flag 0 <> 0) (seq 0 (length flag)).

(** The flags after force-keeping and the greedy pass. *)
Definition kept_flags (sc : Scorer) (tokens flags : list str) (question : str) (max : nat)
    : list nat :=
  let st := split_sentences sc tokens flags question in
  let S := sentences st in
  let n := length S in
  let s_rank := spread n (r_scores (rl st)) in
  (greedy S s_rank max (argsort_desc s_rank)
     (<[n - 2 := 1]> (<[n - 1 := 1]> (<[1 := 1]> (<[0 := 1]> (repeat 0 n)))))
     (length (nth 0 S []) + length (nth 1 S []) + length (nth (n - 1) S [])
      + length (nth (n - 2) S []))).1.

(** What holds of the splitting loop after the items [p]. *)
Record split_inv (p : list (nat * (str * str))) (st : split_state) : Prop := {
  inv_len_f : length (sentences_f st) = length (sentences st);
  inv_len_r : length (r_scores (rl st)) = length (sentences st);
  inv_len_p : length (p_scores (rl st)) = length (sentences st);
  inv_tokens : concat (sentences st) ++ cur_s st `sublist_of` p.*2.*1;
  inv_flags : concat (sentences_f st) ++ cur_s_f st `sublist_of` p.*2.*2;
  inv_two : Forall (fun s => 2 <= length s) (sentences st)
}.



(** ** Text normalisation ([clean_text]) *)

(** [re.sub('[...]', repl, row)] for a class of single characters. *)
Definition sub_class (cls : N -> bool) (repl : str) (row : str) : str :=
  flat_map (fun c => if cls c then repl else [c]) row.

(** [re.sub('\s{2,}', '', row)]: every maximal run of two or more whitespace
    characters is deleted.  [run] is the whitespace read since the last other
    character. *)
Fixpoint drop_space_runs (run : str) (row : str) : str :=
  match row with
  | [] => if length run <? 2 then run else []
  | c :: row' =>
      if is_space c then drop_space_runs (run ++ [c]) row'
      else (if length run <? 2 then run else []) ++ c :: drop_space_runs [] row'
  end.

(** [clean] of [clean_text] (lines 77-102). *)
Definition clean (row : str) : str :=
  let row := sub_class (fun c => (c =? 12288) || (c =? 9))%N [32%N] row in
  let row := drop_space_runs [] row in
  let row := sub_class (fun c => (c =? 8220) || (c =? 8221))%N [] row in
  let row := sub_class (fun c => (c =? 13) || (c =? 10))%N [32%N] row in
  let row := sub_class (N.eqb 65296) [48%N] row in
  let row := sub_class (N.eqb 65297) [49%N] row in
  let row := sub_class (N.eqb 65298) [50%N] row in
  let row := sub_class (N.eqb 65299) [51%N] row in
  let row := sub_class (N.eqb 65300) [52%N] row in
  let row := sub_class (N.eqb 65301) [53%N] row in
  let row := sub_class (N.eqb 65302) [54%N] row in
  let row := sub_class (N.eqb 65303) [55%N] row in
  let row := sub_class (N.eqb 65304) [56%N] row in
  let row := sub_class (N.eqb 65305) [57%N] row in
  let row := sub_class (N.eqb 65294) [46%N] row in
  match last row with
  | Some c => if (c =? MARKER)%N then strip (removelast row) else row
  | None => row
  end.

(** [merge] of [clean_text]: title, marker, content. *)
Definition merge_article (title content : str) : str := title ++ [MARKER] ++ content.

(** [drop_list] of [clean_text]: the ideographic full stop, the full-width
    comma, colon, exclamation and question marks, and the space. *)
Definition drop_list : list N := [12290; 65292; 65306; 65281; 65311; 32]%N.

Definition in_drop_list (c : N) : bool := existsb (N.eqb c) drop_list.

(** [answer[:-1].strip() if answer[-1] in drop_list else answer] *)
Definition trim_tail (answer : str) : result str :=
  c ← py_getitem answer (-1);
  Ok (if in_drop_list c then strip (removelast answer) else answer).

(** [answer[1:].strip() if answer[0] in drop_list else answer] *)
Definition trim_head (answer : str) : result str :=
  c ← py_getitem answer 0;
  Ok (if in_drop_list c then strip (tail answer) else answer).

(** A list comprehension whose element expression may raise. *)
Fixpoint comprehension {A B} (f : A -> result B) (l : list A) : result (list B) :=
  match l with
  | [] => Ok []
  | x :: l' =>
      y ← f x;
      ys ← comprehension f l';
      Ok (y :: ys)
  end.

(** [col.loc[mask] = values]: the entries selected by [mask] take the
    successive [values]. *)
Fixpoint assign_where {A} (mask : A -> bool) (col : list A) (values : list A) : list A :=
  match col with
  | [] => []
  | x :: col' =>
      if mask x then
        match values with
        | v :: values' => v :: assign_where mask col' values'
        | [] => x :: assign_where mask col' []
        end
      else x :: assign_where mask col' values
  end.

Definition nonempty (s : str) : bool := negb (length s =? 0).

(** The treatment of the answer column in [clean_text] (lines 121-127). *)
Definition clean_answers (col : list str) : result (list str) :=
  let col := map clean col in
  let col := map strip col in
  let answers := filter (fun a => nonempty a = true) col in
  answers ← comprehension trim_tail answers;
  answers ← comprehension trim_head answers;
  Ok (assign_where nonempty col answers).

(** ** Segmentation with pyltp ([_apply_cut_pyltp]) *)

(** [row.split(sep)] for a one-character separator. *)
Fixpoint split_on (sep : N) (row : str) : list str :=
  match row with
  | [] => [[]]
  | c :: row' =>
      if (c =? sep)%N then [] :: split_on sep row'
      else
        match split_on sep row' with
        | part :: parts => (c :: part) :: parts
        | [] => [[c]]
        end
  end.

(** [_cut] of [_apply_cut_pyltp] (lines 151-171); [segment] and [postag] are
    the pyltp segmentor and tagger. *)
Definition cut_pyltp (segment : str -> list str) (postag : list str -> list str)
    (row : str) : list str * list str :=
  let cut_res :=
    if substrb [MARKER] row then
      let parts := split_on MARKER row in
      fold_left
        (fun cut_res it =>
           let cut_res := cut_res ++ segment it.2 in
           if negb (Z.of_nat it.1 =? Z.of_nat (length parts) - 1)%Z
           then cut_res ++ [[MARKER]] else cut_res)
        (enumerate parts) []
    else segment row in
  (cut_res, postag cut_res).

(** ** Token cleaning ([clean_token]) *)

(** The loop of [clean] in [clean_token] (lines 205-209). *)
Definition clean_tokens (tokens flags : list str) : list str * list str :=
  fold_left
    (fun st it =>
       let token := strip it.1 in
       if nonempty token then (st.1 ++ [token], st.2 ++ [it.2]) else st)
    (zip tokens flags) ([], []).

(** [clean] of [clean_token] on a row (lines 202-214). *)
Definition clean_token_row (row : Row) (token_col flag_col : string) : result Row :=
  tokens ← get_strs row token_col;
  flags ← get_strs row flag_col;
  let cleaned := clean_tokens tokens flags in
  Ok (<[flag_col := VStrs cleaned.2]> (<[token_col := VStrs cleaned.1]> row)).

(** ** Sampling, then locating ([preprocess_dataset], lines 487-489) *)

Definition sample_and_locate (sc : Scorer) (merge : DataFrame -> DataFrame -> DataFrame)
    (n_cpu : nat) (adf qadf : DataFrame) (article_sample_len : nat) : result DataFrame :=
  sample_df ← parallel_sample_article sc merge n_cpu adf qadf article_sample_len;
  parallel_find_gold_span sc n_cpu sample_df.

(** ** Notions used in the further properties *)

(** A text that is empty or starts with a character that is not whitespace. *)
Definition starts_clean (s : str) : Prop :=
  match s with
  | [] => True
  | c :: _ => is_space c = false
  end.

(** The parts with the segmentation of each, and a marker token between
    consecutive parts. *)
Fixpoint with_markers (segment : str -> list str) (parts : list str) : list str :=
  match parts with
  | [] => []
  | part :: parts' =>
      segment part ++ match parts' with
                      | [] => []
                      | _ :: _ => [MARKER] :: with_markers segment parts'
                      end
  end.

(** The parts joined again, with the separator between them. *)
Fixpoint rejoin (sep : N) (parts : list str) : str :=
  match parts with
  | [] => []
  | part :: parts' =>
      part ++ match parts' with
              | [] => []
              | _ :: _ => sep :: rejoin sep parts'
              end
  end.

(** The characters [clean] rewrites or deletes: the ideographic space, the
    tab, the curly double quotes, CR and LF, the full-width digits and the
    full-width full stop. *)
Definition normalized_away : list N :=
  [12288; 9; 8220; 8221; 13; 10; 65296; 65297; 65298; 65299; 65300; 65301; 65302;
   65303; 65304; 65305; 65294]%N.

(** A character [clean] leaves alone wherever it stands: not whitespace, not
    among [normalized_away], not the marker. *)
Definition plain (c : N) : bool :=
  negb (is_space c || existsb (N.eqb c) normalized_away || (c =? MARKER)%N).

(** An answer that the trimming of its last character leaves empty: not
    empty, ending in a character of [drop_list], with nothing but whitespace
    before it. *)
Definition vanishes (answer : str) : bool :=
  match last answer with
  | Some c => in_drop_list c && negb (nonempty (strip (removelast answer)))
  | None => false
  end.

(** What [trim_tail] returns on an answer that is not empty. *)
Definition trimmed_tail (answer : str) : str :=
  match last answer with
  | Some c => if in_drop_list c then strip (removelast answer) else answer
  | None => answer
  end.

(** Whether a call returned rather than raised. *)
Definition returns {A : Type} (m : result A) : bool :=
  match m with Ok _ => true | Raise _ => false end.

(** * Properties *)

(** ** Python indexing *)

Lemma py_index_nonneg (n i : nat) : i < n -> py_index n (Z.of_nat i) = Some i.
Proof.
  intros Hi. unfold py_index.
  destruct (Z.ltb_spec (Z.of_nat i) 0) as [Hneg | _]; [lia |].
  destruct (Z.leb_spec 0 (Z.of_nat i)) as [_ | Hneg]; [| lia].
  destruct (Z.ltb_spec (Z.of_nat i) (Z.of_nat n)) as [_ | Hge]; [| lia].
  simpl. f_equal. lia.
Qed.

Lemma py_index_from_end (n k : nat) :
  1 <= k <= n -> py_index n (- Z.of_nat k) = Some (n - k).
Proof.
  intros Hk. unfold py_index.
  destruct (Z.ltb_spec (- Z.of_nat k) 0) as [_ | Hge]; [| lia].
  destruct (Z.leb_spec 0 (- Z.of_nat k + Z.of_nat n)) as [_ | Hneg]; [| lia].
  destruct (Z.ltb_spec (- Z.of_nat k + Z.of_nat n) (Z.of_nat n)) as [_ | Hge]; [| lia].
  simpl. f_equal. lia.
Qed.

Lemma py_index_out_nonneg (n i : nat) : n <= i -> py_index n (Z.of_nat i) = None.
Proof.
  intros Hi. unfold py_index.
  destruct (Z.ltb_spec (Z.of_nat i) 0) as [Hneg | _]; [lia |].
  destruct (Z.ltb_spec (Z.of_nat i) (Z.of_nat n)) as [Hlt | _]; [lia |].
  now rewrite andb_false_r.
Qed.

Lemma py_index_out_from_end (n k : nat) : n < k -> py_index n (- Z.of_nat k) = None.
Proof.
  intros Hk. unfold py_index.
  destruct (Z.ltb_spec (- Z.of_nat k) 0) as [_ | Hge]; [| lia].
  destruct (Z.leb_spec 0 (- Z.of_nat k + Z.of_nat n)) as [Hpos | _]; [lia |].
  reflexivity.
Qed.

Lemma py_getitem_nonneg {A} (l : list A) (i : nat) (x : A) :
  l !! i = Some x -> py_getitem l (Z.of_nat i) = Ok x.
Proof.
  intros Hx. unfold py_getitem.
  rewrite py_index_nonneg by (eapply lookup_lt_Some; eassumption).
  now rewrite Hx.
Qed.

Lemma py_getitem_from_end {A} (l : list A) (k : nat) (x : A) :
  1 <= k <= length l -> l !! (length l - k) = Some x -> py_getitem l (- Z.of_nat k) = Ok x.
Proof.
  intros Hk Hx. unfold py_getitem.
  rewrite py_index_from_end by lia.
  now rewrite Hx.
Qed.

Lemma py_setitem_nonneg {A} (l : list A) (i : nat) (x : A) :
  i < length l -> py_setitem l (Z.of_nat i) x = Ok (<[i := x]> l).
Proof. intros Hi. unfold py_setitem. now rewrite py_index_nonneg. Qed.

Lemma py_setitem_from_end {A} (l : list A) (k : nat) (x : A) :
  1 <= k <= length l -> py_setitem l (- Z.of_nat k) x = Ok (<[length l - k := x]> l).
Proof. intros Hk. unfold py_setitem. now rewrite py_index_from_end. Qed.

(** ** Force-keeping the boundary sentences *)

Lemma force_keep_ok (flag : list nat) :
  2 <= length flag ->
  force_keep flag =
    Ok (<[length flag - 2 := 1]> (<[length flag - 1 := 1]> (<[1 := 1]> (<[0 := 1]> flag)))).
Proof.
  intros Hn. unfold force_keep.
  rewrite (py_setitem_nonneg flag 0) by lia. cbn [mbind result_bind].
  rewrite (py_setitem_nonneg _ 1) by (rewrite length_insert; lia). cbn [mbind result_bind].
  rewrite (py_setitem_from_end _ 1) by (rewrite !length_insert; lia). cbn [mbind result_bind].
  rewrite (py_setitem_from_end _ 2) by (rewrite !length_insert; lia).
  now rewrite !length_insert.
Qed.

Lemma force_keep_raises (flag : list nat) :
  length flag < 2 -> force_keep flag = Raise IndexError.
Proof.
  intros Hn. destruct flag as [| a [| b flag']]; simpl in Hn; try lia; reflexivity.
Qed.

Lemma force_kept_len_ok (S : list (list str)) :
  2 <= length S ->
  force_kept_len S =
    Ok (length (nth 0 S []) + length (nth 1 S []) + length (nth (length S - 1) S [])
        + length (nth (length S - 2) S [])).
Proof.
  intros Hn. unfold force_kept_len.
  assert (Hlk : forall i, i < length S -> S !! i = Some (nth i S [])).
  { intros i Hi. destruct (lookup_lt_is_Some_2 S i Hi) as [x Hx].
    rewrite Hx. f_equal. symmetry. now apply nth_lookup_Some. }
  pose proof (py_getitem_nonneg S 0 _ (Hlk 0 ltac:(lia))) as E0.
  pose proof (py_getitem_nonneg S 1 _ (Hlk 1 ltac:(lia))) as E1.
  assert (H1 : 1 <= 1 <= length S) by lia.
  assert (H2 : 1 <= 2 <= length S) by lia.
  pose proof (py_getitem_from_end S 1 _ H1 (Hlk (length S - 1) ltac:(lia))) as E2.
  pose proof (py_getitem_from_end S 2 _ H2 (Hlk (length S - 2) ltac:(lia))) as E3.
  change (Z.of_nat 0) with 0%Z in E0. change (Z.of_nat 1) with 1%Z in E1.
  change (- Z.of_nat 1)%Z with (-1)%Z in E2. change (- Z.of_nat 2)%Z with (-2)%Z in E3.
  rewrite E0. cbn [mbind result_bind].
  rewrite E1. cbn [mbind result_bind].
  rewrite E2. cbn [mbind result_bind].
  rewrite E3. reflexivity.
Qed.

Lemma force_kept_len_raises (S : list (list str)) :
  length S < 2 -> force_kept_len S = Raise IndexError.
Proof.
  intros Hn. destruct S as [| a [| b S']]; simpl in Hn; try lia; reflexivity.
Qed.

(** ** Lists *)

Lemma fold_left_prefix_inv {St I} (f : St -> I -> St) (P : list I -> St -> Prop)
    (s0 : St) (items : list I) :
  P [] s0 ->
  (forall p x s, P p s -> P (p ++ [x]) (f s x)) ->
  P items (fold_left f items s0).
Proof.
  intros H0 Hstep. induction items as [| x items IH] using rev_ind; [exact H0 |].
  rewrite fold_left_app. simpl. now apply Hstep.
Qed.


Lemma StronglySorted_sublist {A} (R : A -> A -> Prop) (l1 l2 : list A) :
  l1 `sublist_of` l2 -> StronglySorted R l2 -> StronglySorted R l1.
Proof.
  induction 1 as [| x l1 l2 Hsub IH | x l1 l2 Hsub IH]; intros Hs.
  - constructor.
  - apply StronglySorted_inv in Hs as [Hs Hx]. constructor; [now apply IH |].
    rewrite Forall_forall in Hx |- *. intros y Hy. apply Hx.
    eapply elem_of_sublist; eassumption.
  - apply StronglySorted_inv in Hs as [Hs _]. now apply IH.
Qed.

Lemma StronglySorted_lt_seq (a n : nat) : StronglySorted lt (seq a n).
Proof.
  revert a. induction n as [| n IH]; intros a; simpl; constructor; [apply IH |].
  apply Forall_forall. intros y Hy. apply elem_of_seq in Hy. lia.
Qed.


Lemma sublist_zip_fst {A B} (l : list A) (k : list B) : (zip l k).*1 `sublist_of` l.
Proof.
  revert k. induction l as [| x l IH]; intros [| y k]; simpl.
  - constructor.
  - constructor.
  - apply sublist_nil_l.
  - apply sublist_skip, IH.
Qed.


Lemma enumerate_snd {A} (l : list A) : (enumerate l).*2 = l.
Proof. unfold enumerate. apply snd_zip. now rewrite length_seq. Qed.

(** ** Sentence splitting *)

Lemma force_recall_lengths (rl : RougeL) :
  length (r_scores (force_recall rl)) = length (r_scores rl)
  /\ length (p_scores (force_recall rl)) = length (p_scores rl).
Proof.
  unfold force_recall. destruct (last (p_scores rl)) as [p |]; [| easy].
  destruct (Qeq_bool p 1); [| easy]. simpl. unfold set_last. now rewrite length_insert.
Qed.

Lemma split_step_inv (sc : Scorer) (n : nat) (question : str) p x st :
  split_inv p st -> split_inv (p ++ [x]) (split_step sc n question st x).
Proof.
  intros [Hf Hr Hp Ht Hfl H2]. destruct x as [idx [token flag]]. unfold split_step.
  destruct (substrb token [MARKER] || (Z.of_nat idx =? Z.of_nat n - 1)%Z).
  - destruct (Nat.leb_spec 2 (length (cur_s st ++ [token]))) as [Hlen | Hlen].
    + destruct (force_recall_lengths (add_inst sc (rl st) (join (cur_s st ++ [token])) question))
        as [Er Ep].
      constructor; simpl; rewrite ?fmap_app; simpl.
      * rewrite !length_app. simpl. lia.
      * rewrite Er. simpl. rewrite !length_app. simpl. lia.
      * rewrite Ep. simpl. rewrite !length_app. simpl. lia.
      * rewrite concat_app. simpl. rewrite !app_nil_r, app_assoc.
        now apply sublist_app.
      * rewrite concat_app. simpl. rewrite !app_nil_r, app_assoc.
        now apply sublist_app.
      * apply Forall_app. split; [exact H2 |]. now repeat constructor.
    + constructor; simpl; rewrite ?fmap_app; simpl; try assumption.
      * rewrite app_nil_r. apply sublist_inserts_r.
        etransitivity; [| exact Ht]. apply sublist_inserts_r. reflexivity.
      * rewrite app_nil_r. apply sublist_inserts_r.
        etransitivity; [| exact Hfl]. apply sublist_inserts_r. reflexivity.
  - constructor; simpl; rewrite ?fmap_app; simpl; try assumption.
    + rewrite app_assoc. now apply sublist_app.
    + rewrite app_assoc. now apply sublist_app.
Qed.

Lemma split_sentences_inv (sc : Scorer) (tokens flags : list str) (question : str) :
  split_inv (enumerate (zip tokens flags)) (split_sentences sc tokens flags question).
Proof.
  unfold split_sentences. apply fold_left_prefix_inv.
  - constructor; simpl; try reflexivity; constructor.
  - intros p x s. apply split_step_inv.
Qed.


(** ** The greedy and assembling loops *)

Lemma greedy_length S s_rank max rank flag cur_len :
  length (greedy S s_rank max rank flag cur_len).1 = length flag.
Proof.
  unfold greedy. revert flag cur_len.
  induction rank as [| pos rank IH]; intros flag cur_len; simpl; [reflexivity |].
  destruct (cur_len <? max); simpl; [| reflexivity].
  destruct (Qlt_bool 0 (nth pos s_rank 0%Q)); rewrite IH; [apply length_insert | reflexivity].
Qed.

Lemma selected_sorted (flag : list nat) : StronglySorted lt (selected flag).
Proof.
  unfold selected. eapply StronglySorted_sublist; [apply sublist_filter |].
  apply StronglySorted_lt_seq.
Qed.


Lemma assemble_fold S SF flag idxs cand cand_f :
  fold_left (assemble_step S SF flag) idxs (cand, cand_f) =
    (cand ++ concat (map (fun i => nth i S []) (filter (fun i => nth i flag 0 <> 0) idxs)),
     cand_f ++ concat (map (fun i => nth i SF []) (filter (fun i => nth i flag 0 <> 0) idxs))).
Proof.
  revert cand cand_f. induction idxs as [| i idxs IH]; intros cand cand_f; simpl.
  - now rewrite !app_nil_r.
  - rewrite filter_cons. destruct (decide (nth i flag 0 <> 0)) as [E | E].
    + assert (Hs : assemble_step S SF flag (cand, cand_f) i
                   = (cand ++ nth i S [], cand_f ++ nth i SF [])).
      { unfold assemble_step. destruct (Nat.eqb_spec (nth i flag 0) 0); [contradiction | easy]. }
      rewrite Hs, IH. simpl. now rewrite <- !app_assoc.
    + assert (Hs : assemble_step S SF flag (cand, cand_f) i = (cand, cand_f)).
      { unfold assemble_step. destruct (Nat.eqb_spec (nth i flag 0) 0); [easy | contradiction]. }
      rewrite Hs. apply IH.
Qed.

Lemma assemble_selected S SF flag :
  assemble S SF flag =
    (concat (map (fun i => nth i S []) (selected flag)),
     concat (map (fun i => nth i SF []) (selected flag))).
Proof. unfold assemble. now rewrite assemble_fold. Qed.


(** ** The Sampler above the budget *)

Lemma kept_flags_length sc tokens flags question max :
  length (kept_flags sc tokens flags question max)
  = length (sentences (split_sentences sc tokens flags question)).
Proof.
  unfold kept_flags. rewrite greedy_length, !length_insert. apply repeat_length.
Qed.

Section SamplerRow.
Variables (sc : Scorer) (row : Row) (tc fc qc : string) (max : nat).
Variables (tokens flags question : list str).
Hypothesis Htokens : row !! tc = Some (VStrs tokens).
Hypothesis Hflags : row !! fc = Some (VStrs flags).
Hypothesis Hquestion : row !! qc = Some (VStrs question).

Let st := split_sentences sc tokens flags (join question).

Lemma sample_article_below :
  length tokens <= max -> sample_article sc row tc fc qc max = Ok row.
Proof.
  intros Hlen. unfold sample_article, get_strs.
  rewrite Htokens, Hflags, Hquestion. cbn [mbind result_bind].
  destruct (Nat.leb_spec (length tokens) max); [reflexivity | lia].
Qed.

Lemma sample_article_no_marker :
  max < length tokens ->
  substrb [MARKER] (join tokens) = false ->
  sample_article sc row tc fc qc max =
    (s0 ← py_getitem (sentences st) 0;
     f0 ← py_getitem (sentences_f st) 0;
     Ok (<[fc := VStrs f0]> (<[tc := VStrs s0]> row))).
Proof.
  intros Hlen Hm. unfold sample_article, get_strs.
  rewrite Htokens, Hflags, Hquestion. cbn [mbind result_bind].
  destruct (Nat.leb_spec (length tokens) max); [lia |].
  now rewrite Hm.
Qed.

Lemma sample_article_marker_raises :
  max < length tokens ->
  substrb [MARKER] (join tokens) = true ->
  length (sentences st) < 2 ->
  sample_article sc row tc fc qc max = Raise IndexError.
Proof.
  intros Hlen Hm Hn. unfold sample_article, get_strs.
  rewrite Htokens, Hflags, Hquestion. cbn [mbind result_bind].
  destruct (Nat.leb_spec (length tokens) max); [lia |].
  rewrite Hm. cbn [negb]. fold st.
  rewrite force_keep_raises by (now rewrite repeat_length). reflexivity.
Qed.

Lemma sample_article_marker_ok :
  max < length tokens ->
  substrb [MARKER] (join tokens) = true ->
  2 <= length (sentences st) ->
  let sel := selected (kept_flags sc tokens flags (join question) max) in
  sample_article sc row tc fc qc max =
    Ok (<[fc := VStrs (firstn max (concat (map (fun i => nth i (sentences_f st) []) sel)))]>
          (<[tc := VStrs (firstn max (concat (map (fun i => nth i (sentences st) []) sel)))]>
             row)).
Proof.
  intros Hlen Hm Hn sel. unfold sample_article, get_strs.
  rewrite Htokens, Hflags, Hquestion. cbn [mbind result_bind].
  destruct (Nat.leb_spec (length tokens) max); [lia |].
  rewrite Hm. cbn [negb]. fold st.
  rewrite force_keep_ok by (now rewrite repeat_length). cbn [mbind result_bind].
  rewrite force_kept_len_ok by exact Hn. cbn [mbind result_bind].
  rewrite repeat_length.
  destruct (greedy _ _ _ _ _ _) as [flag cur_len] eqn:Eg.
  rewrite assemble_selected.
  assert (Eflag : flag = kept_flags sc tokens flags (join question) max).
  { unfold kept_flags. fold st. now rewrite Eg. }
  subst flag. reflexivity.
Qed.
End SamplerRow.

Lemma marker_token_in_text (tokens : list str) :
  In [MARKER] tokens -> substrb [MARKER] (join tokens) = true.
Proof.
  induction tokens as [| t tokens IH]; intros Hin; [contradiction |].
  destruct Hin as [-> | Hin].
  - reflexivity.
  - specialize (IH Hin). unfold join in *. simpl concat.
    induction t as [| c t IHt]; [exact IH |].
    simpl. simpl in IHt. rewrite IHt. apply orb_true_r.
Qed.

(** ** Claims about the Sentence Sampler *)

(** C7. A row whose article has at most [max_token_len] tokens is returned
    as it is: the result is the input row itself, every field included. *)
Theorem sampler_identity_below_budget (sc : Scorer) (row : Row) (tc fc qc : string)
    (max : nat) (tokens flags question : list str) :
  row !! tc = Some (VStrs tokens) ->
  row !! fc = Some (VStrs flags) ->
  row !! qc = Some (VStrs question) ->
  length tokens <= max ->
  sample_article sc row tc fc qc max = Ok row.
Proof. intros Ht Hf Hq Hlen. eapply sample_article_below; eassumption. Qed.

(** C1. Above the budget: when the article text contains the marker, the call
    either raises [IndexError] (fewer than two sentences were detected) or
    replaces tokens and flags by sequences of at most [max_token_len]
    elements; when the text contains no marker, the replacement is exactly the
    first detected sentence and its flags, whatever their length. *)
Theorem sampler_length_bound (sc : Scorer) (row : Row) (tc fc qc : string)
    (max : nat) (tokens flags question : list str) :
  row !! tc = Some (VStrs tokens) ->
  row !! fc = Some (VStrs flags) ->
  row !! qc = Some (VStrs question) ->
  max < length tokens ->
  let st := split_sentences sc tokens flags (join question) in
  (substrb [MARKER] (join tokens) = true ->
     (length (sentences st) < 2 /\ sample_article sc row tc fc qc max = Raise IndexError)
     \/ (2 <= length (sentences st) /\
         exists toks' flags',
           sample_article sc row tc fc qc max
             = Ok (<[fc := VStrs flags']> (<[tc := VStrs toks']> row))
           /\ length toks' <= max /\ length flags' <= max))
  /\ (substrb [MARKER] (join tokens) = false ->
      forall s f,
        head (sentences st) = Some s -> head (sentences_f st) = Some f ->
        sample_article sc row tc fc qc max
          = Ok (<[fc := VStrs f]> (<[tc := VStrs s]> row))).
Proof.
  intros Ht Hf Hq Hlen st. split.
  - intros Hm. destruct (Nat.lt_ge_cases (length (sentences st)) 2) as [Hn | Hn].
    + left. split; [exact Hn |]. eapply sample_article_marker_raises; eassumption.
    + right. split; [exact Hn |]. eexists _, _. split.
      * eapply sample_article_marker_ok; eassumption.
      * split; apply firstn_le_length.
  - intros Hm s f Hs Hsf.
    rewrite (sample_article_no_marker sc row tc fc qc max tokens flags question) by assumption.
    fold st. destruct (sentences st) as [| s0 S]; [discriminate |].
    destruct (sentences_f st) as [| f0 SF]; [discriminate |].
    simpl in Hs, Hsf. injection Hs as ->. injection Hsf as ->. reflexivity.
Qed.

(** C2. Two rows on which the Sampler raises [IndexError], for every scorer.
    In the first the article is a lone marker followed by one sentence longer
    than the budget (an empty title before a one-sentence content): one
    sentence is detected.  In the second the article is three markers: no
    sentence is detected, and the row is not returned unchanged. *)
Theorem sampler_raises_below_two_sentences (sc : Scorer) :
  sample_article sc
    (sample_row [[MARKER]; [1%N]; [2%N]; [3%N]] (tk [9; 8; 8; 8]%N) [[1%N]])
    "article_tokens" "article_flags" "question_tokens" 3 = Raise IndexError
  /\ sample_article sc
    (sample_row [[MARKER]; [MARKER]; [MARKER]] (tk [9; 9; 9]%N) [[1%N]])
    "article_tokens" "article_flags" "question_tokens" 2 = Raise IndexError.
Proof.
  split.
  - eapply sample_article_marker_raises; try reflexivity; simpl; lia.
  - eapply sample_article_marker_raises; try reflexivity; simpl; lia.
Qed.


(** ** The order produced by [argsort] *)

Lemma Qlt_bool_iff (x y : Q) : Qlt_bool x y = true <-> (x < y)%Q.
Proof.
  unfold Qlt_bool. rewrite negb_true_iff. split.
  - intros H. apply Qnot_le_lt. intros Hle. apply Qle_bool_iff in Hle. congruence.
  - intros H. destruct (Qle_bool y x) eqn:E; [| reflexivity].
    apply Qle_bool_iff in E. exfalso. eapply Qlt_not_le; eassumption.
Qed.








(** ** The spreading and greedy loops *)

Lemma for_loop_invariant {I St} (P : St -> Prop) (body : St -> I -> ctl St)
    (its : list I) (s : St) :
  P s ->
  (forall s i, P s -> match body s i with Continue s' | Break s' => P s' end) ->
  P (for_loop body its s).
Proof.
  intros Hs Hbody. revert s Hs. induction its as [| i its IH]; intros s Hs; simpl; [exact Hs |].
  specialize (Hbody s i Hs). destruct (body s i); [now apply IH | exact Hbody].
Qed.








Lemma sampler_identity_below_budget_witness :
  sample_article rouge_lcs (sample_row five_sentences five_flags [[7%N]])
    "article_tokens" "article_flags" "question_tokens" 10
  = Ok (sample_row five_sentences five_flags [[7%N]]).
Proof.
  apply (sampler_identity_below_budget rouge_lcs _ _ _ _ 10 five_sentences five_flags [[7%N]]).
  - reflexivity.
  - reflexivity.
  - reflexivity.
  - simpl. lia.
Defined.

Lemma sampler_length_bound_witness :
  (exists toks' flags',
     sample_article rouge_lcs (sample_row five_sentences five_flags [[7%N]])
       "article_tokens" "article_flags" "question_tokens" 9
     = Ok (<["article_flags" := VStrs flags']>
             (<["article_tokens" := VStrs toks']>
                (sample_row five_sentences five_flags [[7%N]])))
     /\ length toks' <= 9 /\ length flags' <= 9)
  /\ sample_article rouge_lcs (sample_row (tk [1; 2; 3]%N) (tk [5; 5; 5]%N) [[7%N]])
       "article_tokens" "article_flags" "question_tokens" 2
     = Ok (<["article_flags" := VStrs (tk [5; 5; 5]%N)]>
             (<["article_tokens" := VStrs (tk [1; 2; 3]%N)]>
                (sample_row (tk [1; 2; 3]%N) (tk [5; 5; 5]%N) [[7%N]]))).
Proof.
  split.
  - destruct (sampler_length_bound rouge_lcs (sample_row five_sentences five_flags [[7%N]])
                "article_tokens" "article_flags" "question_tokens" 9
                five_sentences five_flags [[7%N]])
      as [Hmarker _]; [reflexivity | reflexivity | reflexivity | simpl; lia |].
    destruct (Hmarker eq_refl) as [[Hn _] | [_ Hok]]; [| exact Hok].
    vm_compute in Hn. lia.
  - apply (sampler_length_bound rouge_lcs (sample_row (tk [1; 2; 3]%N) (tk [5; 5; 5]%N) [[7%N]])
             "article_tokens" "article_flags" "question_tokens" 2
             (tk [1; 2; 3]%N) (tk [5; 5; 5]%N) [[7%N]]);
      try reflexivity. simpl. lia.
Defined.


(** ** The Locator's scan *)

Lemma fold_left_pairs {St A B} (f : A -> St -> B -> St) (la : list A) (lb : list B) (s : St) :
  fold_left (fun st i => fold_left (f i) lb st) la s
  = fold_left (fun st c => f c.1 st c.2) (flat_map (fun i => map (pair i) lb) la) s.
Proof.
  revert s. induction la as [| i la IH]; intros s; simpl; [reflexivity |].
  rewrite fold_left_app, <- IH. f_equal.
  generalize s. clear. induction lb as [| t lb IH]; intros s; simpl; [reflexivity | apply IH].
Qed.

Lemma enumerate_snoc {A} (l : list A) (x : A) :
  enumerate (l ++ [x]) = enumerate l ++ [(length l, x)].
Proof.
  unfold enumerate. rewrite length_app, Nat.add_comm. simpl length.
  rewrite seq_S. rewrite zip_with_app by (now rewrite length_seq). reflexivity.
Qed.

Lemma exacts_snoc sc article ground svs c :
  exacts sc article ground (svs ++ [c])
  = exacts sc article ground svs
    ++ (if Qeq_bool (sim_of sc article ground c) 1 then [(length svs, c)] else []).
Proof.
  unfold exacts. rewrite enumerate_snoc, filter_app. f_equal.
  rewrite filter_cons, filter_nil. simpl.
  destruct (Qeq_bool (sim_of sc article ground c) 1) eqn:E.
  - now rewrite decide_True.
  - now rewrite decide_False by discriminate.
Qed.

Lemma locate_step_state sc article ground question svs c :
  locate_step sc article ground question c.1 (state_of sc article ground question svs) c.2
  = state_of sc article ground question
      (svs ++ (if survives article ground c then [c] else [])).
Proof.
  unfold locate_step, survives, in_bounds.
  destruct ((c.2 <=? 0)%Z || (c.1 + c.2 >? Z.of_nat (length article))%Z); simpl.
  { now rewrite app_nil_r. }
  destruct (passes_prefilter (cand_text article c.1 c.2) ground); simpl.
  2: { now rewrite app_nil_r. }
  unfold state_of. rewrite exacts_snoc, !map_app. simpl.
  rewrite last_snoc. fold (sim_of sc article ground c).
  rewrite length_map.
  destruct (Qeq_bool (sim_of sc article ground c) 1); simpl.
  - reflexivity.
  - rewrite !app_nil_r. reflexivity.
Qed.

Lemma locate_scan_state sc article len_a ground question :
  locate_scan sc article len_a ground question
  = state_of sc article ground question (survivors article len_a ground).
Proof.
  unfold locate_scan, survivors. rewrite fold_left_pairs. fold (candidates (Z.of_nat (length article)) len_a).
  apply (fold_left_prefix_inv _
           (fun p st => st = state_of sc article ground question
                               (filter (fun c => survives article ground c = true) p))).
  - reflexivity.
  - intros p c st ->. rewrite locate_step_state, filter_app. f_equal. f_equal.
    rewrite filter_cons, filter_nil.
    destruct (survives article ground c) eqn:E.
    + now rewrite decide_True.
    + now rewrite decide_False by discriminate.
Qed.

(** ** [argmax] *)

Lemma argmax_from_spec (l pre a : list Q) (best : nat) :
  l = pre ++ a ->
  best < length pre ->
  (forall j, j < length pre -> (nth j l 0 <= nth best l 0)%Q) ->
  (forall j, j < best -> (nth j l 0 < nth best l 0)%Q) ->
  let m := argmax_from best (nth best l 0%Q) (length pre) a in
  m < length l
  /\ (forall j, j < length l -> (nth j l 0 <= nth m l 0)%Q)
  /\ (forall j, j < m -> (nth j l 0 < nth m l 0)%Q).
Proof.
  revert pre best. induction a as [| x a IH]; intros pre best Hl Hb Hmax Hfirst.
  - simpl. rewrite app_nil_r in Hl. subst l. repeat split; assumption.
  - assert (Hx : nth (length pre) l 0%Q = x).
    { subst l. rewrite app_nth2 by lia. now rewrite Nat.sub_diag. }
    assert (Hl' : l = (pre ++ [x]) ++ a) by (now rewrite <- app_assoc).
    assert (Hlen : length (pre ++ [x]) = S (length pre)) by (rewrite length_app; simpl; lia).
    simpl argmax_from. destruct (Qlt_bool (nth best l 0%Q) x) eqn:E.
    + apply Qlt_bool_iff in E. rewrite <- Hx, <- Hlen.
      apply IH; try assumption.
      * lia.
      * intros j Hj. rewrite Hlen in Hj. destruct (Nat.eq_dec j (length pre)) as [-> | Hne].
        -- apply Qle_refl.
        -- rewrite Hx. apply Qlt_le_weak. eapply Qle_lt_trans; [apply Hmax; lia | exact E].
      * intros j Hj. rewrite Hx. eapply Qle_lt_trans; [apply Hmax; lia | exact E].
    + assert (Hle : (x <= nth best l 0)%Q).
      { apply Qnot_lt_le. intros Hlt. apply Qlt_bool_iff in Hlt. congruence. }
      rewrite <- Hlen. apply IH; try assumption.
      * lia.
      * intros j Hj. rewrite Hlen in Hj. destruct (Nat.eq_dec j (length pre)) as [-> | Hne].
        -- now rewrite Hx.
        -- apply Hmax. lia.
Qed.

Lemma argmax_spec (l : list Q) :
  l <> [] ->
  argmax l < length l
  /\ (forall j, j < length l -> (nth j l 0 <= nth (argmax l) l 0)%Q)
  /\ (forall j, j < argmax l -> (nth j l 0 < nth (argmax l) l 0)%Q).
Proof.
  destruct l as [| x a]; [congruence |]. intros _. unfold argmax.
  apply (argmax_from_spec (x :: a) [x] a 0).
  - reflexivity.
  - simpl. lia.
  - intros j Hj. simpl in Hj. replace j with 0 by lia. apply Qle_refl.
  - intros j Hj. lia.
Qed.

(** ** Exact matches *)

Lemma lookup_enumerate {A} (l : list A) (i : nat) :
  enumerate l !! i = (fun x => (i, x)) <$> l !! i.
Proof.
  induction l as [| x l IH] using rev_ind; [reflexivity |].
  rewrite enumerate_snoc.
  assert (Hel : length (enumerate l) = length l).
  { unfold enumerate. rewrite length_zip_with, length_seq. lia. }
  destruct (Nat.lt_ge_cases i (length l)) as [Hi | Hi].
  - rewrite !lookup_app_l by lia. exact IH.
  - rewrite !lookup_app_r by lia. rewrite Hel.
    destruct (i - length l) as [| d] eqn:Ed; simpl; [| reflexivity].
    f_equal. f_equal. lia.
Qed.



Lemma elem_of_exacts sc article ground svs k c :
  (k, c) ∈ exacts sc article ground svs
  <-> svs !! k = Some c /\ Qeq_bool (sim_of sc article ground c) 1 = true.
Proof.
  unfold exacts. rewrite list_elem_of_filter. simpl. split.
  - intros [He Hin]. split; [| exact He].
    apply list_elem_of_lookup in Hin as [i Hi]. rewrite lookup_enumerate in Hi.
    destruct (svs !! i) as [x |] eqn:Ex; simpl in Hi; [| discriminate].
    injection Hi as -> ->. exact Ex.
  - intros [Hk He]. split; [exact He |].
    apply list_elem_of_lookup. exists k. rewrite lookup_enumerate, Hk. reflexivity.
Qed.

Lemma exacts_length sc article ground svs :
  length (exacts sc article ground svs)
  = length (filter (fun c => Qeq_bool (sim_of sc article ground c) 1 = true) svs).
Proof.
  induction svs as [| c svs IH] using rev_ind; [reflexivity |].
  rewrite exacts_snoc, filter_app, !length_app, IH. f_equal.
  rewrite filter_cons, filter_nil.
  destruct (Qeq_bool (sim_of sc article ground c) 1) eqn:E.
  - now rewrite decide_True.
  - now rewrite decide_False by discriminate.
Qed.

Lemma em_count_map sc article ground svs :
  em_count (map (sim_of sc article ground) svs)
  = length (filter (fun c => Qeq_bool (sim_of sc article ground c) 1 = true) svs).
Proof.
  unfold em_count. induction svs as [| c svs IH]; [reflexivity |].
  simpl map. rewrite !filter_cons.
  destruct (Qeq_bool (sim_of sc article ground c) 1) eqn:E.
  - rewrite !decide_True by reflexivity. simpl. now rewrite IH.
  - rewrite !decide_False by discriminate. exact IH.
Qed.


(** ** Candidates *)

Lemma elem_of_py_range (a b x : Z) : x ∈ py_range a b <-> (a <= x < b)%Z.
Proof.
  unfold py_range. rewrite list_elem_of_fmap. split.
  - intros (k & -> & Hk). apply elem_of_seq in Hk. lia.
  - intros Hx. exists (Z.to_nat (x - a)). split; [lia |]. apply elem_of_seq. lia.
Qed.

Lemma elem_of_candidates (len_p len_a i t : Z) :
  (i, t) ∈ candidates len_p len_a
  <-> (0 <= i < len_p - len_a + 1 /\ len_a - 2 <= t < len_a + 3)%Z.
Proof.
  unfold candidates. rewrite list_elem_of_In, in_flat_map. split.
  - intros (i' & Hi & Hin). apply list_elem_of_In, elem_of_py_range in Hi.
    apply in_map_iff in Hin as (t' & Heq & Ht). injection Heq as -> ->.
    apply list_elem_of_In, elem_of_py_range in Ht. lia.
  - intros [Hi Ht]. exists i. split.
    + apply list_elem_of_In, elem_of_py_range. lia.
    + apply in_map_iff. exists t. split; [reflexivity |].
      apply list_elem_of_In, elem_of_py_range. lia.
Qed.

Lemma elem_of_survivors (article : list str) (len_a : Z) (ground : str) (i t : Z) :
  (i, t) ∈ survivors article len_a ground
  <-> (0 <= i <= Z.of_nat (length article) - len_a /\ len_a - 2 <= t <= len_a + 2
       /\ 0 < t /\ i + t <= Z.of_nat (length article))%Z
      /\ passes_prefilter (cand_text article i t) ground = true.
Proof.
  unfold survivors. rewrite list_elem_of_filter, elem_of_candidates.
  unfold survives, in_bounds. simpl.
  rewrite andb_true_iff, negb_true_iff, orb_false_iff, Z.leb_gt, Z.gtb_ltb, Z.ltb_ge.
  intuition lia.
Qed.

(** ** The Locator on a labeled row *)

Section LocatorRow.
Variables (sc : Scorer) (row : Row) (ac qc anc : string).
Variables (article question answer : list str).
Hypothesis Harticle : row !! ac = Some (VStrs article).
Hypothesis Hquestion : row !! qc = Some (VStrs question).
Hypothesis Hanswer : row !! anc = Some (VStrs answer).

Let ground := strip (join answer).
Let q := strip (join question).
Let svs := survivors article (Z.of_nat (length answer)) ground.
Let sims := map (sim_of sc article ground) svs.
Let ex := exacts sc article ground svs.
Let ctxs := map (fun kc => ctx_of sc article q kc.2) ex.

Lemma find_golden_span_none :
  svs = [] ->
  find_golden_span sc row ac qc anc = Ok (write_span row (-1) (-1) [] [] []).
Proof.
  intros Hs. unfold find_golden_span, get_strs.
  rewrite Harticle, Hquestion, Hanswer. cbn [mbind result_bind].
  rewrite locate_scan_state. fold ground q svs. rewrite Hs. reflexivity.
Qed.

Lemma find_golden_span_some :
  svs <> [] ->
  exists k c,
    svs !! k = Some c
    /\ k = (if em_count sims <=? 1 then argmax sims else nth (argmax ctxs) (ex.*1) 0)
    /\ ((em_count sims <=? 1) = false -> exists m, m = argmax ctxs /\ ex !! m = Some (k, c))
    /\ find_golden_span sc row ac qc anc
       = Ok (write_span (write_span row (-1) (-1) [] [] []) c.1 (c.1 + c.2 - 1)
               (map fst svs) (map (fun c => (c.1 + c.2 - 1)%Z) svs) sims).
Proof.
  intros Hs. unfold find_golden_span, get_strs.
  rewrite Harticle, Hquestion, Hanswer. cbn [mbind result_bind].
  rewrite locate_scan_state. fold ground q svs. unfold state_of. fold ex.
  cbn [star_spans end_spans rl_ans rl_q rl_q_idx inst_scores r_scores].
  fold sims ctxs.
  destruct (Nat.eqb_spec (length (map fst svs)) 0) as [E | _].
  { rewrite length_map in E. destruct svs; [congruence | discriminate]. }
  assert (Hsims : sims <> []).
  { unfold sims. destruct svs; [congruence | discriminate]. }
  destruct (em_count sims <=? 1) eqn:Eem.
  - destruct (argmax_spec sims Hsims) as (Hlt & _ & _).
    unfold sims in Hlt at 2. rewrite length_map in Hlt.
    destruct (lookup_lt_is_Some_2 svs _ Hlt) as [c Hc].
    exists (argmax sims), c. split; [exact Hc |]. split; [reflexivity |].
    split; [discriminate |]. cbn [mbind result_bind].
    rewrite (py_getitem_nonneg (map fst svs) (argmax sims) c.1)
      by (now rewrite list_lookup_fmap, Hc).
    cbn [mbind result_bind].
    rewrite (py_getitem_nonneg (map (fun c => (c.1 + c.2 - 1)%Z) svs) (argmax sims)
               (c.1 + c.2 - 1)%Z)
      by (now rewrite list_lookup_fmap, Hc).
    reflexivity.
  - apply Nat.leb_gt in Eem.
    assert (Hex : 2 <= length ex).
    { unfold ex. rewrite exacts_length. unfold sims in Eem. rewrite em_count_map in Eem. lia. }
    assert (Hctxs : ctxs <> []).
    { unfold ctxs. destruct ex; [simpl in Hex; lia | discriminate]. }
    destruct (argmax_spec ctxs Hctxs) as (Hlt & _ & _).
    unfold ctxs in Hlt at 2. rewrite length_map in Hlt.
    destruct (lookup_lt_is_Some_2 ex _ Hlt) as [[k c] Hkc].
    assert (Hin : (k, c) ∈ ex) by (eapply list_elem_of_lookup_2; exact Hkc).
    apply elem_of_exacts in Hin as [Hc _].
    exists k, c. split; [exact Hc |].
    assert (Hfst : ex.*1 !! argmax ctxs = Some k) by (now rewrite list_lookup_fmap, Hkc).
    split; [symmetry; now apply nth_lookup_Some |].
    split; [intros _; now exists (argmax ctxs) |].
    rewrite (py_getitem_nonneg (map fst ex) _ _ Hfst). cbn [mbind result_bind].
    rewrite (py_getitem_nonneg (map fst svs) k c.1) by (now rewrite list_lookup_fmap, Hc).
    cbn [mbind result_bind].
    rewrite (py_getitem_nonneg (map (fun c => (c.1 + c.2 - 1)%Z) svs) k (c.1 + c.2 - 1)%Z)
      by (now rewrite list_lookup_fmap, Hc).
    reflexivity.
Qed.
End LocatorRow.

Lemma write_span_lookup_start row s e starts ends rouges :
  write_span row s e starts ends rouges !! "answer_token_start" = Some (VInt s).
Proof. unfold write_span. now rewrite !lookup_insert_ne, lookup_insert_eq by discriminate. Qed.

Lemma write_span_lookup_end row s e starts ends rouges :
  write_span row s e starts ends rouges !! "answer_token_end" = Some (VInt e).
Proof. unfold write_span. now rewrite !lookup_insert_ne, lookup_insert_eq by discriminate. Qed.

Lemma write_span_lookup_starts row s e starts ends rouges :
  write_span row s e starts ends rouges !! "delta_token_starts" = Some (VInts starts).
Proof. unfold write_span. now rewrite !lookup_insert_ne, lookup_insert_eq by discriminate. Qed.

Lemma write_span_lookup_ends row s e starts ends rouges :
  write_span row s e starts ends rouges !! "delta_token_ends" = Some (VInts ends).
Proof. unfold write_span. now rewrite !lookup_insert_ne, lookup_insert_eq by discriminate. Qed.

Lemma write_span_lookup_rouges row s e starts ends rouges :
  write_span row s e starts ends rouges !! "delta_rouges" = Some (VFloats rouges).
Proof. unfold write_span. now rewrite lookup_insert_eq. Qed.

Lemma write_span_frame row s e starts ends rouges (col : string) :
  col ∉ ["answer_token_start"; "answer_token_end"; "delta_token_starts";
         "delta_token_ends"; "delta_rouges"] ->
  write_span row s e starts ends rouges !! col = row !! col.
Proof.
  intros Hcol. unfold write_span.
  rewrite !lookup_insert_ne; [reflexivity | ..]; intros <-; apply Hcol;
    repeat (first [left | right]).
Qed.

(** ** Claims about the Gold Span Locator *)

(** C3. On a labeled row the Locator returns.  Either no candidate span
    (start [i] in [0, len_p - len_a], length [t] in [len_a - 2, len_a + 2],
    positive, ending inside the article) passes the prefilter, and the result
    carries start = end = -1 and three empty delta arrays; or some candidate
    passes, and the result carries a span with [0 <= start <= end < len_p]
    that is itself such a candidate and passed the prefilter. *)
Theorem locator_sentinel (sc : Scorer) (row : Row) (ac qc anc : string)
    (article question answer : list str) :
  row !! ac = Some (VStrs article) ->
  row !! qc = Some (VStrs question) ->
  row !! anc = Some (VStrs answer) ->
  let ground := strip (join answer) in
  let len_p := Z.of_nat (length article) in
  let len_a := Z.of_nat (length answer) in
  let passing (i t : Z) :=
    (0 <= i <= len_p - len_a /\ len_a - 2 <= t <= len_a + 2 /\ 0 < t /\ i + t <= len_p)%Z
    /\ passes_prefilter (cand_text article i t) ground = true in
  exists row',
    find_golden_span sc row ac qc anc = Ok row'
    /\ (((forall i t, ~ passing i t)
         /\ row' !! "answer_token_start" = Some (VInt (-1))
         /\ row' !! "answer_token_end" = Some (VInt (-1))
         /\ row' !! "delta_token_starts" = Some (VInts [])
         /\ row' !! "delta_token_ends" = Some (VInts [])
         /\ row' !! "delta_rouges" = Some (VFloats []))
        \/ ((exists i t, passing i t)
            /\ exists s e,
                 row' !! "answer_token_start" = Some (VInt s)
                 /\ row' !! "answer_token_end" = Some (VInt e)
                 /\ (0 <= s /\ s <= e /\ e < len_p)%Z
                 /\ passing s (e - s + 1)%Z)).
Proof.
  intros Ha Hq Hn ground len_p len_a passing.
  destruct (survivors article len_a ground) as [| c0 svs0] eqn:Es.
  - eexists. split; [eapply find_golden_span_none; eassumption |]. left.
    split.
    + intros i t Hp. apply elem_of_survivors in Hp. fold ground len_a in Hp.
      rewrite Es in Hp. now apply not_elem_of_nil in Hp.
    + rewrite write_span_lookup_start, write_span_lookup_end, write_span_lookup_starts,
        write_span_lookup_ends, write_span_lookup_rouges. repeat split.
  - destruct (find_golden_span_some sc row ac qc anc article question answer Ha Hq Hn)
      as (k & [i t] & Hk & _ & _ & Hrun).
    { fold ground len_a. rewrite Es. discriminate. }
    fold ground len_a in Hk.
    assert (Hp : passing i t).
    { apply elem_of_survivors. eapply list_elem_of_lookup_2. exact Hk. }
    eexists. split; [exact Hrun |]. right. split; [now exists i, t |].
    exists i, (i + t - 1)%Z. simpl.
    rewrite write_span_lookup_start, write_span_lookup_end.
    split; [reflexivity |]. split; [reflexivity |].
    replace (i + t - 1 - i + 1)%Z with t by lia.
    split; [| exact Hp]. destruct Hp as [Hb _]. lia.
Qed.


(** C10. On a labeled row the Locator returns a row that agrees with the
    input row on every column other than the five it writes. *)
Theorem locator_frame (sc : Scorer) (row : Row) (ac qc anc : string)
    (article question answer : list str) :
  row !! ac = Some (VStrs article) ->
  row !! qc = Some (VStrs question) ->
  row !! anc = Some (VStrs answer) ->
  exists row',
    find_golden_span sc row ac qc anc = Ok row'
    /\ forall col : string,
         col ∉ ["answer_token_start"; "answer_token_end"; "delta_token_starts";
                "delta_token_ends"; "delta_rouges"] ->
         row' !! col = row !! col.
Proof.
  intros Ha Hq Hn.
  destruct (survivors article (Z.of_nat (length answer)) (strip (join answer)))
    as [| c0 svs0] eqn:Es.
  - eexists. split; [eapply find_golden_span_none; eassumption |].
    intros col Hcol. now apply write_span_frame.
  - destruct (find_golden_span_some sc row ac qc anc article question answer Ha Hq Hn)
      as (k & c & _ & _ & _ & Hrun).
    { rewrite Es. discriminate. }
    eexists. split; [exact Hrun |].
    intros col Hcol. now rewrite !write_span_frame.
Qed.

(** ** The Batch Orchestrator *)

Lemma chunks_concat {A} (sizes : list nat) (l : list A) :
  length l <= sum_list sizes -> concat (chunks sizes l) = l.
Proof.
  revert l. induction sizes as [| k sizes IH]; intros l Hlen; simpl in *.
  - destruct l; [reflexivity | simpl in Hlen; lia].
  - rewrite IH by (rewrite length_skipn; lia). apply firstn_skipn.
Qed.

Lemma sum_list_append (l k : list nat) : sum_list (l ++ k) = sum_list l + sum_list k.
Proof. induction l as [| x l IH]; simpl; [reflexivity | rewrite IH; lia]. Qed.

Lemma sum_list_repeat (x n : nat) : sum_list (repeat x n) = n * x.
Proof. induction n as [| n IH]; simpl; [reflexivity | now rewrite IH]. Qed.

Lemma array_split_concat {A} (l : list A) (sections : nat) :
  1 <= sections ->
  exists parts, array_split l sections = Ok parts /\ concat parts = l.
Proof.
  intros Hs. unfold array_split. destruct (Nat.eqb_spec sections 0) as [E | _]; [lia |].
  eexists. split; [reflexivity |]. apply chunks_concat.
  rewrite sum_list_append, !sum_list_repeat.
  pose proof (Nat.div_mod_eq (length l) sections) as Hdm.
  pose proof (Nat.mod_upper_bound (length l) sections ltac:(lia)) as Hub.
  nia.
Qed.

Lemma array_split_one {A} (l : list A) : array_split l 1 = Ok [l].
Proof.
  unfold array_split. simpl Nat.eqb. cbv iota.
  rewrite Nat.div_1_r, Nat.mod_1_r. simpl. now rewrite firstn_all.
Qed.

Lemma df_apply_app (f : Row -> result Row) (a b : DataFrame) :
  df_apply f (a ++ b)
  = (a' ← df_apply f a; b' ← df_apply f b; Ok (a' ++ b')).
Proof.
  induction a as [| [ix row] a IH]; simpl.
  - destruct (df_apply f b); reflexivity.
  - destruct (f row) as [row' | e]; simpl; [| reflexivity].
    rewrite IH. destruct (df_apply f a) as [a' | e]; simpl; [| reflexivity].
    destruct (df_apply f b); reflexivity.
Qed.

Lemma pool_map_concat (f : Row -> result Row) (parts : list DataFrame) :
  (results ← pool_map (df_apply f) parts; Ok (pd_concat results))
  = df_apply f (concat parts).
Proof.
  induction parts as [| part parts IH]; simpl; [reflexivity |].
  rewrite df_apply_app, <- IH.
  destruct (df_apply f part) as [part' | e]; simpl; [| reflexivity].
  destruct (pool_map (df_apply f) parts); reflexivity.
Qed.

(** Split, map and concatenate is the row-wise map over the whole table. *)
Lemma split_apply_concat (f : Row -> result Row) (df : DataFrame) (n_cpu : nat) :
  1 <= n_cpu ->
  (split_dfs ← array_split df n_cpu;
   results ← pool_map (df_apply f) split_dfs;
   Ok (pd_concat results))
  = df_apply f df.
Proof.
  intros Hn. destruct (array_split_concat df n_cpu Hn) as (parts & -> & Hc).
  cbn [mbind result_bind]. rewrite <- Hc. apply pool_map_concat.
Qed.

Lemma df_apply_index (f : Row -> result Row) (df out : DataFrame) :
  df_apply f df = Ok out -> out.*1 = df.*1.
Proof.
  revert out. induction df as [| [ix row] df IH]; intros out; simpl.
  - now intros [= <-].
  - destruct (f row) as [row' | e]; simpl; [| discriminate].
    destruct (df_apply f df) as [rest | e]; simpl; [| discriminate].
    intros [= <-]. simpl. f_equal. now apply IH.
Qed.



(** The joined example table has three rows; with three workers, as with
    one, both drivers return three rows under the original index. *)
Example orchestrator_run :
  (inner_join example_articles example_questions).*1 = [0; 1; 2]%Z
  /\ (out ← parallel_sample_article rouge_lcs inner_join 3 example_articles example_questions 9;
      Ok out.*1) = Ok [0; 1; 2]%Z
  /\ (out ← parallel_find_gold_span rouge_lcs 3 (inner_join example_articles example_questions);
      Ok out.*1) = Ok [0; 1; 2]%Z.
Proof. vm_compute. repeat split; reflexivity. Qed.

Lemma locator_sentinel_witness :
  (exists row',
     find_golden_span rouge_lcs
       (labeled_row (tk [32463; 27982; 22686; 38271]%N) (tk [32463]%N) (tk [22686; 38271]%N))
       "article_tokens" "question_tokens" "answer_tokens" = Ok row'
     /\ row' !! "answer_token_start" = Some (VInt 2)
     /\ row' !! "answer_token_end" = Some (VInt 3))
  /\ (exists row',
        find_golden_span rouge_lcs
          (labeled_row (tk [32463; 27982; 22686; 38271]%N) (tk [32463]%N) (tk [5; 6]%N))
          "article_tokens" "question_tokens" "answer_tokens" = Ok row'
        /\ row' !! "answer_token_start" = Some (VInt (-1))
        /\ row' !! "answer_token_end" = Some (VInt (-1))
        /\ row' !! "delta_rouges" = Some (VFloats [])).
Proof.
  split.
  - destruct (locator_sentinel rouge_lcs
                (labeled_row (tk [32463; 27982; 22686; 38271]%N) (tk [32463]%N)
                   (tk [22686; 38271]%N))
                "article_tokens" "question_tokens" "answer_tokens"
                (tk [32463; 27982; 22686; 38271]%N) (tk [32463]%N) (tk [22686; 38271]%N)
                eq_refl eq_refl eq_refl) as (row' & Hrun & _).
    exists row'. split; [exact Hrun |].
    vm_compute in Hrun. injection Hrun as <-. split; reflexivity.
  - destruct (locator_sentinel rouge_lcs
                (labeled_row (tk [32463; 27982; 22686; 38271]%N) (tk [32463]%N) (tk [5; 6]%N))
                "article_tokens" "question_tokens" "answer_tokens"
                (tk [32463; 27982; 22686; 38271]%N) (tk [32463]%N) (tk [5; 6]%N)
                eq_refl eq_refl eq_refl) as (row' & Hrun & _).
    exists row'. split; [exact Hrun |].
    vm_compute in Hrun. injection Hrun as <-. repeat split; reflexivity.
Defined.


(** On [twice_row] the answer text occurs at tokens 0-1 and 4-5; both are
    exact matches, and the second, whose window reaches the question's
    tokens, is selected. *)
Example locator_selects_by_context :
  (row' ← find_golden_span rouge_lcs twice_row "article_tokens" "question_tokens"
            "answer_tokens";
   Ok (row' !! "answer_token_start", row' !! "answer_token_end"))
  = Ok (Some (VInt 4), Some (VInt 5)).
Proof. vm_compute. reflexivity. Qed.

Lemma locator_frame_witness :
  exists row',
    find_golden_span rouge_lcs twice_row "article_tokens" "question_tokens" "answer_tokens"
      = Ok row'
    /\ forall col : string,
         col ∉ ["answer_token_start"; "answer_token_end"; "delta_token_starts";
                "delta_token_ends"; "delta_rouges"] ->
         row' !! col = twice_row !! col.
Proof.
  apply (locator_frame rouge_lcs twice_row "article_tokens" "question_tokens"
           "answer_tokens" (tk [1; 2; 3; 4; 1; 2; 7; 8]%N) (tk [7; 8]%N) (tk [1; 2]%N));
    reflexivity.
Defined.

(** * Further properties *)

Lemma returns_ok {A : Type} (m : result A) : returns m = true -> exists a, m = Ok a.
Proof. destruct m as [a | e]; [now exists a | discriminate]. Qed.

(** ** The Sampler keeps tokens and flags aligned *)

Lemma split_sentences_aligned (sc : Scorer) (tokens flags : list str) (question : str) :
  Forall2 (fun s f => length s = length f)
          (sentences (split_sentences sc tokens flags question))
          (sentences_f (split_sentences sc tokens flags question)).
Proof.
  unfold split_sentences.
  apply (fold_left_prefix_inv _
           (fun _ st => Forall2 (fun s f => length s = length f) (sentences st) (sentences_f st)
                        /\ length (cur_s st) = length (cur_s_f st))).
  - split; [constructor | reflexivity].
  - intros p [idx [token flag]] st [Hall Hcur]. unfold split_step.
    assert (Hlen : length (cur_s st ++ [token]) = length (cur_s_f st ++ [flag])).
    { rewrite !length_app. simpl. lia. }
    destruct (substrb token [MARKER] || (Z.of_nat idx =? Z.of_nat (length tokens) - 1)%Z).
    + destruct (2 <=? length (cur_s st ++ [token])); simpl; split; try reflexivity;
        try assumption.
      apply Forall2_app; [exact Hall |]. constructor; [exact Hlen | constructor].
    + simpl. split; assumption.
Qed.

Lemma aligned_nth (S SF : list (list str)) (i : nat) :
  Forall2 (fun s f => length s = length f) S SF ->
  length (nth i S []) = length (nth i SF []).
Proof.
  intros Hall. revert i. induction Hall as [| s f S SF Hsf _ IH]; intros [| i]; simpl; auto.
Qed.

Lemma aligned_concat (S SF : list (list str)) (sel : list nat) :
  Forall2 (fun s f => length s = length f) S SF ->
  length (concat (map (fun i => nth i S []) sel))
  = length (concat (map (fun i => nth i SF []) sel)).
Proof.
  intros Hall. induction sel as [| i sel IH]; simpl; [reflexivity |].
  rewrite !length_app, IH. f_equal. now apply aligned_nth.
Qed.

(** The three ways the Sampler returns on a row with its three columns. *)
Lemma sample_article_cases (sc : Scorer) (row row' : Row) (tc fc qc : string) (max : nat)
    (tokens flags question : list str) :
  row !! tc = Some (VStrs tokens) ->
  row !! fc = Some (VStrs flags) ->
  row !! qc = Some (VStrs question) ->
  sample_article sc row tc fc qc max = Ok row' ->
  let st := split_sentences sc tokens flags (join question) in
  (length tokens <= max /\ row' = row)
  \/ (max < length tokens /\ substrb [MARKER] (join tokens) = false
      /\ exists s0 f0, head (sentences st) = Some s0 /\ head (sentences_f st) = Some f0
           /\ row' = <[fc := VStrs f0]> (<[tc := VStrs s0]> row))
  \/ (max < length tokens /\ substrb [MARKER] (join tokens) = true
      /\ 2 <= length (sentences st)
      /\ row' = <[fc := VStrs (firstn max (concat (map (fun i => nth i (sentences_f st) [])
                           (selected (kept_flags sc tokens flags (join question) max)))))]>
                  (<[tc := VStrs (firstn max (concat (map (fun i => nth i (sentences st) [])
                           (selected (kept_flags sc tokens flags (join question) max)))))]>
                     row)).
Proof.
  intros Ht Hf Hq Hrun st.
  destruct (Nat.le_gt_cases (length tokens) max) as [Hle | Hgt].
  { left. split; [exact Hle |].
    rewrite (sample_article_below sc row tc fc qc max tokens flags question) in Hrun
      by assumption. now injection Hrun. }
  right. destruct (substrb [MARKER] (join tokens)) eqn:Hm.
  - right. split; [exact Hgt |]. split; [reflexivity |].
    destruct (Nat.lt_ge_cases (length (sentences st)) 2) as [Hn | Hn].
    { rewrite (sample_article_marker_raises sc row tc fc qc max tokens flags question) in Hrun
        by assumption. discriminate. }
    split; [exact Hn |].
    rewrite (sample_article_marker_ok sc row tc fc qc max tokens flags question) in Hrun
      by assumption. now injection Hrun.
  - left. split; [exact Hgt |]. split; [reflexivity |].
    rewrite (sample_article_no_marker sc row tc fc qc max tokens flags question) in Hrun
      by assumption. fold st in Hrun.
    destruct (sentences st) as [| s0 S]; [discriminate |].
    destruct (sentences_f st) as [| f0 SF]; [discriminate |].
    simpl in Hrun. injection Hrun as <-. now exists s0, f0.
Qed.

Lemma get_strs_ok (row : Row) (col : string) (l : list str) :
  get_strs row col = Ok l -> row !! col = Some (VStrs l).
Proof.
  unfold get_strs. destruct (row !! col) as [[] |]; try discriminate. now intros [= ->].
Qed.

Lemma sample_article_ok_columns (sc : Scorer) (row row' : Row) (tc fc qc : string) (max : nat) :
  sample_article sc row tc fc qc max = Ok row' ->
  exists tokens flags question,
    row !! tc = Some (VStrs tokens) /\ row !! fc = Some (VStrs flags)
    /\ row !! qc = Some (VStrs question).
Proof.
  unfold sample_article. intros Hrun.
  destruct (get_strs row tc) as [tokens |] eqn:Et; [| discriminate].
  destruct (get_strs row fc) as [flags |] eqn:Ef; [| discriminate].
  destruct (get_strs row qc) as [question |] eqn:Eq; [| discriminate].
  exists tokens, flags, question. auto using get_strs_ok.
Qed.

(** X1. The Sampler changes nothing but the two article columns: whenever it
    returns, every other column of the result is the input's. *)
Theorem sampler_frame (sc : Scorer) (row row' : Row) (tc fc qc : string) (max : nat) :
  sample_article sc row tc fc qc max = Ok row' ->
  forall col : string, col <> tc -> col <> fc -> row' !! col = row !! col.
Proof.
  intros Hrun col Htc Hfc.
  destruct (sample_article_ok_columns _ _ _ _ _ _ _ Hrun) as (tokens & flags & question & Ht & Hf & Hq).
  destruct (sample_article_cases _ _ _ _ _ _ _ _ _ _ Ht Hf Hq Hrun)
    as [[_ ->] | [(_ & _ & s0 & f0 & _ & _ & ->) | (_ & _ & _ & ->)]].
  - reflexivity.
  - now rewrite !lookup_insert_ne by congruence.
  - now rewrite !lookup_insert_ne by congruence.
Qed.

Lemma sampler_frame_witness :
  sample_row (tk [1; MARKER; 2; MARKER; 3; MARKER; 4; MARKER]%N)
             (tk [5; 6; 5; 6; 5; 6; 5; 6]%N) [[7%N]] !! "question_tokens"
  = sample_row five_sentences five_flags [[7%N]] !! "question_tokens".
Proof.
  apply (sampler_frame rouge_lcs (sample_row five_sentences five_flags [[7%N]]) _
           "article_tokens" "article_flags" "question_tokens" 9).
  - vm_compute. reflexivity.
  - discriminate.
  - discriminate.
Defined.

(** X2. Whenever the Sampler replaces the article (the article is above the
    budget and the call returns), the new token and flag sequences have the
    same length, also when the input sequences did not. *)
Theorem sampler_output_aligned (sc : Scorer) (row row' : Row) (tc fc qc : string) (max : nat)
    (tokens flags question : list str) :
  row !! tc = Some (VStrs tokens) ->
  row !! fc = Some (VStrs flags) ->
  row !! qc = Some (VStrs question) ->
  max < length tokens ->
  sample_article sc row tc fc qc max = Ok row' ->
  exists toks' flags',
    row' = <[fc := VStrs flags']> (<[tc := VStrs toks']> row)
    /\ length toks' = length flags'.
Proof.
  intros Ht Hf Hq Hgt Hrun.
  pose proof (split_sentences_aligned sc tokens flags (join question)) as Hal.
  destruct (sample_article_cases _ _ _ _ _ _ _ _ _ _ Ht Hf Hq Hrun)
    as [[Hle _] | [(_ & _ & s0 & f0 & Hs & Hsf & ->) | (_ & _ & _ & ->)]].
  - lia.
  - exists s0, f0. split; [reflexivity |].
    destruct Hal as [| s f S SF Hsf' _]; [discriminate |].
    simpl in Hs, Hsf. now injection Hs as <-; injection Hsf as <-.
  - eexists _, _. split; [reflexivity |].
    rewrite !length_take. f_equal. now apply aligned_concat.
Qed.

Lemma sampler_output_aligned_witness :
  exists toks' flags',
    sample_row (tk [1; MARKER; 2; MARKER; 3; MARKER]%N) (tk [5; 6; 5; 6; 5; 6]%N) [[7%N]]
    = <["article_flags" := VStrs flags']>
        (<["article_tokens" := VStrs toks']>
           (sample_row (tk [1; MARKER; 2; MARKER; 3; MARKER; 4; MARKER]%N)
                       (tk [5; 6; 5; 6; 5; 6]%N) [[7%N]]))
    /\ length toks' = length flags'.
Proof.
  apply (sampler_output_aligned rouge_lcs _ _ "article_tokens" "article_flags"
           "question_tokens" 7 (tk [1; MARKER; 2; MARKER; 3; MARKER; 4; MARKER]%N)
           (tk [5; 6; 5; 6; 5; 6]%N) [[7%N]]).
  - reflexivity.
  - reflexivity.
  - reflexivity.
  - simpl. lia.
  - vm_compute. reflexivity.
Defined.

(** ** When the Sampler raises *)

(** X3. On a row that has its three columns the Sampler raises exactly when
    the article is above the budget and either its text contains the marker
    and fewer than two sentences were detected, or its text contains no marker
    and no sentence was detected; the exception is then [IndexError]. *)
Theorem sampler_raises_iff (sc : Scorer) (row : Row) (tc fc qc : string) (max : nat)
    (tokens flags question : list str) (e : exn) :
  row !! tc = Some (VStrs tokens) ->
  row !! fc = Some (VStrs flags) ->
  row !! qc = Some (VStrs question) ->
  let st := split_sentences sc tokens flags (join question) in
  sample_article sc row tc fc qc max = Raise e
  <-> e = IndexError /\ max < length tokens
      /\ ((substrb [MARKER] (join tokens) = true /\ length (sentences st) < 2)
          \/ (substrb [MARKER] (join tokens) = false /\ sentences st = [])).
Proof.
  intros Ht Hf Hq st.
  destruct (split_sentences_inv sc tokens flags (join question)) as [Hlf _ _ _ _ _].
  fold st in Hlf.
  destruct (Nat.le_gt_cases (length tokens) max) as [Hle | Hgt].
  { rewrite (sample_article_below sc row tc fc qc max tokens flags question) by assumption.
    split; [discriminate | lia]. }
  destruct (substrb [MARKER] (join tokens)) eqn:Hm.
  - destruct (Nat.lt_ge_cases (length (sentences st)) 2) as [Hn | Hn].
    + rewrite (sample_article_marker_raises sc row tc fc qc max tokens flags question)
        by assumption.
      split; [intros [= <-]; auto | now intros [-> _]].
    + rewrite (sample_article_marker_ok sc row tc fc qc max tokens flags question)
        by assumption.
      split; [discriminate |]. intros (_ & _ & [[_ Hlt] | [Hfalse _]]); [lia | discriminate].
  - rewrite (sample_article_no_marker sc row tc fc qc max tokens flags question)
      by assumption.
    fold st. destruct (sentences st) as [| s0 S] eqn:Es.
    + split; [intros [= <-]; auto | now intros [-> _]].
    + destruct (sentences_f st) as [| f0 SF]; [discriminate |]. simpl.
      split; [discriminate |]. intros (_ & _ & [[Hfalse _] | [_ Hnil]]); discriminate.
Qed.

Lemma sampler_raises_iff_witness :
  let tokens := [[MARKER]; [1%N]; [2%N]; [3%N]] in
  let st := split_sentences rouge_lcs tokens (tk [9; 8; 8; 8]%N) (join [[1%N]]) in
  sample_article rouge_lcs (sample_row tokens (tk [9; 8; 8; 8]%N) [[1%N]])
    "article_tokens" "article_flags" "question_tokens" 3 = Raise IndexError
  <-> IndexError = IndexError /\ 3 < length tokens
      /\ ((substrb [MARKER] (join tokens) = true /\ length (sentences st) < 2)
          \/ (substrb [MARKER] (join tokens) = false /\ sentences st = [])).
Proof.
  exact (sampler_raises_iff rouge_lcs
           (sample_row [[MARKER]; [1%N]; [2%N]; [3%N]] (tk [9; 8; 8; 8]%N) [[1%N]])
           "article_tokens" "article_flags" "question_tokens" 3
           [[MARKER]; [1%N]; [2%N]; [3%N]] (tk [9; 8; 8; 8]%N) [[1%N]] IndexError
           eq_refl eq_refl eq_refl).
Defined.

(** ** The sentences the Sampler always keeps *)

Lemma nth_insert_one (l : list nat) (p i : nat) :
  nth i (<[p := 1]> l) 0 = if decide (i = p /\ p < length l) then 1 else nth i l 0.
Proof.
  rewrite !nth_lookup. destruct (decide (i = p /\ p < length l)) as [[-> Hp] | Hn].
  - now rewrite list_lookup_insert_eq.
  - destruct (decide (i = p)) as [-> | Hne].
    + rewrite list_insert_ge by lia. reflexivity.
    + now rewrite list_lookup_insert_ne.
Qed.

Lemma force_flags_nth (n i : nat) :
  2 <= n ->
  nth i (<[n - 2 := 1]> (<[n - 1 := 1]> (<[1 := 1]> (<[0 := 1]> (repeat 0 n))))) 0
  = if decide (i < n /\ (i = 0 \/ i = 1 \/ i = n - 1 \/ i = n - 2)) then 1 else 0.
Proof.
  intros Hn. rewrite !nth_insert_one, !length_insert, repeat_length.
  assert (Hrep : nth i (repeat 0 n) 0 = 0).
  { destruct (Nat.lt_ge_cases i n); [now apply nth_repeat_lt | now apply nth_overflow; rewrite repeat_length]. }
  rewrite Hrep. repeat case_decide; lia.
Qed.

Lemma greedy_keeps S s_rank max rank flag cur_len (i : nat) :
  nth i flag 0 <> 0 -> nth i (greedy S s_rank max rank flag cur_len).1 0 <> 0.
Proof.
  unfold greedy. revert flag cur_len.
  induction rank as [| pos rank IH]; intros flag cur_len Hi; simpl; [exact Hi |].
  destruct (cur_len <? max); [| exact Hi].
  destruct (Qlt_bool 0 (nth pos s_rank 0%Q)); apply IH; [| exact Hi].
  rewrite nth_insert_one. case_decide; [lia | exact Hi].
Qed.

Lemma elem_of_selected (flag : list nat) (i : nat) :
  i ∈ selected flag <-> i < length flag /\ nth i flag 0 <> 0.
Proof.
  unfold selected. rewrite list_elem_of_filter, elem_of_seq. intuition lia.
Qed.

(** X4. When the Sampler assembles a replacement, the first two and the last
    two sentences are among the selected ones, whatever their scores and
    whatever the budget, and the new tokens start with the first sentence
    (cut to the budget). *)
Theorem sampler_keeps_boundary_sentences (sc : Scorer) (row : Row) (tc fc qc : string)
    (max : nat) (tokens flags question : list str) :
  row !! tc = Some (VStrs tokens) ->
  row !! fc = Some (VStrs flags) ->
  row !! qc = Some (VStrs question) ->
  max < length tokens ->
  substrb [MARKER] (join tokens) = true ->
  let st := split_sentences sc tokens flags (join question) in
  let n := length (sentences st) in
  2 <= n ->
  exists (sel : list nat) (rest : list str),
    sample_article sc row tc fc qc max
    = Ok (<[fc := VStrs (firstn max (concat (map (fun i => nth i (sentences_f st) []) sel)))]>
            (<[tc := VStrs (firstn max (concat (map (fun i => nth i (sentences st) []) sel)))]>
               row))
    /\ 0 ∈ sel /\ 1 ∈ sel /\ n - 2 ∈ sel /\ n - 1 ∈ sel
    /\ firstn max (concat (map (fun i => nth i (sentences st) []) sel))
       = firstn max (nth 0 (sentences st) [] ++ rest).
Proof.
  intros Ht Hf Hq Hgt Hm st n Hn.
  pose proof (kept_flags_length sc tokens flags (join question) max) as Hkl.
  fold st n in Hkl.
  assert (Hkept : forall i, i < n -> (i = 0 \/ i = 1 \/ i = n - 1 \/ i = n - 2) ->
                            i ∈ selected (kept_flags sc tokens flags (join question) max)).
  { intros i Hi Hb. apply elem_of_selected. rewrite Hkl. split; [exact Hi |].
    unfold kept_flags. fold st n. apply greedy_keeps.
    rewrite force_flags_nth by exact Hn. rewrite decide_True by (split; assumption). lia. }
  set (sel := selected (kept_flags sc tokens flags (join question) max)) in *.
  assert (Hhead : exists sel', sel = 0 :: sel').
  { unfold sel, selected. rewrite Hkl.
    destruct n as [| n']; [lia |]. simpl seq. rewrite filter_cons.
    assert (H0 : 0 ∈ sel) by (apply Hkept; lia).
    apply elem_of_selected in H0 as [_ H0]. rewrite decide_True by exact H0. eauto. }
  destruct Hhead as [sel' Hsel].
  exists sel, (concat (map (fun i => nth i (sentences st) []) sel')).
  split; [eapply sample_article_marker_ok; eassumption |].
  repeat split; try (apply Hkept; lia).
  rewrite Hsel. reflexivity.
Qed.

Lemma sampler_keeps_boundary_sentences_witness :
  let st := split_sentences rouge_lcs five_sentences five_flags [7%N] in
  exists (sel : list nat) (rest : list str),
    sample_article rouge_lcs (sample_row five_sentences five_flags [[7%N]])
      "article_tokens" "article_flags" "question_tokens" 9
    = Ok (<["article_flags" :=
              VStrs (firstn 9 (concat (map (fun i => nth i (sentences_f st) []) sel)))]>
            (<["article_tokens" :=
                 VStrs (firstn 9 (concat (map (fun i => nth i (sentences st) []) sel)))]>
               (sample_row five_sentences five_flags [[7%N]])))
    /\ 0 ∈ sel /\ 1 ∈ sel /\ length (sentences st) - 2 ∈ sel /\ length (sentences st) - 1 ∈ sel
    /\ firstn 9 (concat (map (fun i => nth i (sentences st) []) sel))
       = firstn 9 (nth 0 (sentences st) [] ++ rest).
Proof.
  apply (sampler_keeps_boundary_sentences rouge_lcs
           (sample_row five_sentences five_flags [[7%N]])
           "article_tokens" "article_flags" "question_tokens" 9
           five_sentences five_flags [[7%N]]).
  - reflexivity.
  - reflexivity.
  - reflexivity.
  - simpl. lia.
  - reflexivity.
  - vm_compute. lia.
Defined.

(** ** Articles without question-relevant sentences *)

Lemma spread_zero (n : nat) (scores : list Q) :
  Forall (fun s => (s == 0)%Q) scores -> spread n scores = repeat 0%Q n.
Proof.
  intros Hz. unfold spread. apply for_loop_invariant; [reflexivity |].
  intros s i ->. unfold spread_step. destruct (n <=? i); [reflexivity |].
  set (pos := nth i (argsort_desc scores) 0).
  assert (Hs : Qeq_bool (nth pos scores 0%Q) 0 = true).
  { apply Qeq_bool_iff. destruct (Nat.lt_ge_cases pos (length scores)) as [Hlt | Hge].
    - rewrite Forall_forall in Hz. apply Hz. apply list_elem_of_In. now apply nth_In.
    - rewrite nth_overflow by exact Hge. reflexivity. }
  rewrite Hs, orb_true_r. reflexivity.
Qed.

Lemma greedy_zero S (n max : nat) (rank flag : list nat) (cur_len : nat) :
  greedy S (repeat 0%Q n) max rank flag cur_len = (flag, cur_len).
Proof.
  unfold greedy. induction rank as [| pos rank IH]; simpl; [reflexivity |].
  destruct (cur_len <? max); [| reflexivity].
  assert (Hz : nth pos (repeat 0%Q n) 0%Q = 0%Q).
  { destruct (Nat.lt_ge_cases pos n);
      [now apply nth_repeat_lt | now apply nth_overflow; rewrite repeat_length]. }
  rewrite Hz. exact IH.
Qed.

(** X5. When no sentence has a non-zero recall score against the question,
    the replacement the Sampler assembles consists of the first two and last
    two sentences only, cut to the budget. *)
Theorem sampler_zero_scores (sc : Scorer) (row : Row) (tc fc qc : string)
    (max : nat) (tokens flags question : list str) :
  row !! tc = Some (VStrs tokens) ->
  row !! fc = Some (VStrs flags) ->
  row !! qc = Some (VStrs question) ->
  max < length tokens ->
  substrb [MARKER] (join tokens) = true ->
  let st := split_sentences sc tokens flags (join question) in
  let n := length (sentences st) in
  2 <= n ->
  Forall (fun s => (s == 0)%Q) (r_scores (rl st)) ->
  exists sel : list nat,
    sample_article sc row tc fc qc max
    = Ok (<[fc := VStrs (firstn max (concat (map (fun i => nth i (sentences_f st) []) sel)))]>
            (<[tc := VStrs (firstn max (concat (map (fun i => nth i (sentences st) []) sel)))]>
               row))
    /\ StronglySorted lt sel
    /\ forall i, i ∈ sel <-> i < n /\ (i = 0 \/ i = 1 \/ i = n - 1 \/ i = n - 2).
Proof.
  intros Ht Hf Hq Hgt Hm st n Hn Hz.
  exists (selected (kept_flags sc tokens flags (join question) max)).
  split; [eapply sample_article_marker_ok; eassumption |].
  split; [apply selected_sorted |].
  assert (Hk : kept_flags sc tokens flags (join question) max
               = <[n - 2 := 1]> (<[n - 1 := 1]> (<[1 := 1]> (<[0 := 1]> (repeat 0 n))))).
  { unfold kept_flags. fold st n. rewrite spread_zero by exact Hz. now rewrite greedy_zero. }
  intros i. rewrite elem_of_selected, Hk, !length_insert, repeat_length.
  rewrite force_flags_nth by exact Hn. case_decide; intuition lia.
Qed.

Lemma sampler_zero_scores_witness :
  let st := split_sentences rouge_lcs five_sentences five_flags [9%N] in
  exists sel : list nat,
    sample_article rouge_lcs (sample_row five_sentences five_flags [[9%N]])
      "article_tokens" "article_flags" "question_tokens" 9
    = Ok (<["article_flags" :=
              VStrs (firstn 9 (concat (map (fun i => nth i (sentences_f st) []) sel)))]>
            (<["article_tokens" :=
                 VStrs (firstn 9 (concat (map (fun i => nth i (sentences st) []) sel)))]>
               (sample_row five_sentences five_flags [[9%N]])))
    /\ StronglySorted lt sel
    /\ forall i, i ∈ sel <-> i < length (sentences st)
                 /\ (i = 0 \/ i = 1 \/ i = length (sentences st) - 1
                     \/ i = length (sentences st) - 2).
Proof.
  apply (sampler_zero_scores rouge_lcs (sample_row five_sentences five_flags [[9%N]])
           "article_tokens" "article_flags" "question_tokens" 9
           five_sentences five_flags [[9%N]]).
  - reflexivity.
  - reflexivity.
  - reflexivity.
  - simpl. lia.
  - reflexivity.
  - vm_compute. lia.
  - vm_compute. repeat constructor.
Defined.

(** ** Articles without a marker *)

Lemma substrb_single (c : N) (s : str) : substrb [c] s = true <-> In c s.
Proof.
  induction s as [| d s IH]; simpl; [split; [discriminate | contradiction] |].
  rewrite andb_true_r, orb_true_iff, IH, N.eqb_eq. intuition congruence.
Qed.

Lemma not_boundary_token (token : str) :
  token <> [] -> ~ In MARKER token -> substrb token [MARKER] = false.
Proof.
  intros Hne Hin. destruct token as [| c [| d t]]; [congruence | |].
  - simpl. destruct (N.eqb_spec c MARKER) as [-> | _]; [| reflexivity].
    exfalso. apply Hin. now left.
  - simpl. now rewrite andb_false_r.
Qed.

Lemma split_steps_inside (sc : Scorer) (n : nat) (question : str)
    (its : list (nat * (str * str))) (st : split_state) :
  Forall (fun it => substrb it.2.1 [MARKER] = false /\ it.1 < n - 1) its ->
  fold_left (split_step sc n question) its st
  = mkSplit (sentences st) (sentences_f st)
            (cur_s st ++ map (fun it => it.2.1) its)
            (cur_s_f st ++ map (fun it => it.2.2) its) (rl st).
Proof.
  intros Hall. revert st. induction Hall as [| [idx [token flag]] its [Hb Hi] _ IH]; intros st.
  - simpl. rewrite !app_nil_r. now destruct st.
  - simpl fold_left. rewrite IH. simpl in Hb, Hi. unfold split_step. rewrite Hb.
    destruct (Z.eqb_spec (Z.of_nat idx) (Z.of_nat n - 1)) as [E | _]; [lia |].
    simpl. now rewrite <- !app_assoc.
Qed.

Lemma split_sentences_no_boundary (sc : Scorer) (tokens flags : list str) (question : str) :
  Forall (fun t => substrb t [MARKER] = false) tokens ->
  length flags = length tokens ->
  2 <= length tokens ->
  sentences (split_sentences sc tokens flags question) = [tokens]
  /\ sentences_f (split_sentences sc tokens flags question) = [flags].
Proof.
  intros Hall Hlen Hn.
  destruct tokens as [| t0 tokens'] using rev_ind; [simpl in Hn; lia |]. clear IHtokens'.
  destruct flags as [| f0 flags'] using rev_ind;
    [rewrite length_app in Hlen; simpl in Hlen; lia |]. clear IHflags'.
  rewrite !length_app in Hlen. simpl in Hlen.
  assert (Hl : length tokens' = length flags') by lia.
  unfold split_sentences.
  replace (zip (tokens' ++ [t0]) (flags' ++ [f0])) with (zip tokens' flags' ++ [(t0, f0)])
    by (now rewrite zip_with_app).
  rewrite enumerate_snoc, fold_left_app.
  assert (Hz : length (zip tokens' flags') = length tokens').
  { rewrite length_zip_with. lia. }
  rewrite (split_steps_inside sc _ question (enumerate (zip tokens' flags'))).
  - cbn [fold_left]. unfold split_step.
    cbn [sentences sentences_f cur_s cur_s_f rl fst snd app].
    rewrite Hz, length_app. simpl length.
    destruct (Z.eqb_spec (Z.of_nat (length tokens')) (Z.of_nat (length tokens' + 1) - 1))
      as [_ | Hne]; [| lia].
    rewrite orb_true_r.
    assert (Hmt : map (fun it : nat * (str * str) => it.2.1) (enumerate (zip tokens' flags'))
                  = tokens').
    { transitivity ((enumerate (zip tokens' flags')).*2.*1);
        [now rewrite <- list_fmap_compose |].
      rewrite enumerate_snd. apply fst_zip. lia. }
    assert (Hmf : map (fun it : nat * (str * str) => it.2.2) (enumerate (zip tokens' flags'))
                  = flags').
    { transitivity ((enumerate (zip tokens' flags')).*2.*2);
        [now rewrite <- list_fmap_compose |].
      rewrite enumerate_snd. apply snd_zip. lia. }
    rewrite Hmt, Hmf.
    destruct (Nat.leb_spec 2 (length (tokens' ++ [t0]))) as [_ | Hlt].
    + simpl. split; reflexivity.
    + rewrite length_app in Hn, Hlt. simpl in Hn, Hlt. lia.
  - apply Forall_forall. intros [idx [token flag]] Hin.
    apply list_elem_of_lookup in Hin as [i Hi]. rewrite lookup_enumerate in Hi.
    destruct (zip tokens' flags' !! i) as [[tk' fl'] |] eqn:Ez; simpl in Hi; [| discriminate].
    injection Hi as <- <- <-. simpl. split.
    + apply Forall_app in Hall as [Hall _]. rewrite Forall_forall in Hall. apply Hall.
      apply lookup_zip_with_Some in Ez as (x & y & Heq & Hx & _). injection Heq as <- _.
      eapply list_elem_of_lookup_2. exact Hx.
    + apply lookup_lt_Some in Ez. rewrite length_app. simpl. lia.
Qed.

(** X6. An article above the budget whose text contains no marker is not
    truncated at all: with no empty token, as many flags as tokens and at
    least two tokens, the Sampler returns the row unchanged. *)
Theorem sampler_no_marker_unchanged (sc : Scorer) (row : Row) (tc fc qc : string)
    (max : nat) (tokens flags question : list str) :
  row !! tc = Some (VStrs tokens) ->
  row !! fc = Some (VStrs flags) ->
  row !! qc = Some (VStrs question) ->
  max < length tokens ->
  2 <= length tokens ->
  length flags = length tokens ->
  Forall (fun t => t <> []) tokens ->
  substrb [MARKER] (join tokens) = false ->
  sample_article sc row tc fc qc max = Ok row.
Proof.
  intros Ht Hf Hq Hgt Hn Hlen Hne Hm.
  assert (Hall : Forall (fun t => substrb t [MARKER] = false) tokens).
  { rewrite Forall_forall in Hne |- *. intros t Hin. apply not_boundary_token; [now apply Hne |].
    intros Hc. assert (Hs : substrb [MARKER] (join tokens) = true); [| congruence].
    apply substrb_single. unfold join. apply in_concat. exists t.
    split; [now apply list_elem_of_In | exact Hc]. }
  destruct (split_sentences_no_boundary sc tokens flags (join question) Hall Hlen Hn)
    as [Hs Hsf].
  rewrite (sample_article_no_marker sc row tc fc qc max tokens flags question) by assumption.
  rewrite Hs, Hsf. simpl. f_equal.
  destruct (decide (tc = fc)) as [-> | Hne'].
  - rewrite insert_insert_eq. apply insert_id. exact Hf.
  - rewrite (insert_id row tc) by exact Ht. now apply insert_id.
Qed.

Lemma sampler_no_marker_unchanged_witness :
  sample_article rouge_lcs (sample_row (tk [1; 2; 3]%N) (tk [5; 5; 5]%N) [[7%N]])
    "article_tokens" "article_flags" "question_tokens" 2
  = Ok (sample_row (tk [1; 2; 3]%N) (tk [5; 5; 5]%N) [[7%N]]).
Proof.
  apply (sampler_no_marker_unchanged rouge_lcs _ "article_tokens" "article_flags"
           "question_tokens" 2 (tk [1; 2; 3]%N) (tk [5; 5; 5]%N) [[7%N]]).
  - reflexivity.
  - reflexivity.
  - reflexivity.
  - simpl. lia.
  - simpl. lia.
  - reflexivity.
  - repeat constructor; discriminate.
  - reflexivity.
Defined.

(** ** The Locator's delta arrays *)

Lemma write_span_twice (row : Row) s e starts ends rouges s' e' starts' ends' rouges' :
  write_span (write_span row s e starts ends rouges) s' e' starts' ends' rouges'
  = write_span row s' e' starts' ends' rouges'.
Proof.
  apply map_eq. intros col.
  destruct (decide (col ∈ ["answer_token_start"; "answer_token_end"; "delta_token_starts";
                           "delta_token_ends"; "delta_rouges"])) as [Hin | Hout].
  - repeat (apply elem_of_cons in Hin as [-> | Hin]);
      [| | | | | now apply not_elem_of_nil in Hin].
    + now rewrite !write_span_lookup_start.
    + now rewrite !write_span_lookup_end.
    + now rewrite !write_span_lookup_starts.
    + now rewrite !write_span_lookup_ends.
    + now rewrite !write_span_lookup_rouges.
  - now rewrite !write_span_frame.
Qed.

(** The result of the Locator in terms of the surviving candidates. *)
Lemma find_golden_span_deltas (sc : Scorer) (row : Row) (ac qc anc : string)
    (article question answer : list str) :
  row !! ac = Some (VStrs article) ->
  row !! qc = Some (VStrs question) ->
  row !! anc = Some (VStrs answer) ->
  let ground := strip (join answer) in
  let svs := survivors article (Z.of_nat (length answer)) ground in
  exists s e,
    find_golden_span sc row ac qc anc
    = Ok (write_span row s e (map fst svs) (map (fun c => (c.1 + c.2 - 1)%Z) svs)
            (map (sim_of sc article ground) svs))
    /\ ((svs = [] /\ s = (-1)%Z /\ e = (-1)%Z)
        \/ exists k c, svs !! k = Some c /\ s = c.1 /\ e = (c.1 + c.2 - 1)%Z).
Proof.
  intros Ha Hq Hn ground svs. destruct svs as [| c0 svs0] eqn:Es.
  - exists (-1)%Z, (-1)%Z. split; [| now left].
    now apply (find_golden_span_none sc row ac qc anc article question answer).
  - destruct (find_golden_span_some sc row ac qc anc article question answer Ha Hq Hn)
      as (k & c & Hk & _ & _ & Hrun).
    { fold ground svs. rewrite Es. discriminate. }
    fold ground svs in Hk, Hrun. rewrite Es in Hk, Hrun.
    exists c.1, (c.1 + c.2 - 1)%Z. rewrite write_span_twice in Hrun.
    split; [exact Hrun |]. right. now exists k, c.
Qed.

(** X7. The three delta arrays the Locator writes always have the same
    length, and a span other than the sentinel is the entry of the start and
    end arrays at one common position. *)
Theorem locator_delta_arrays (sc : Scorer) (row : Row) (ac qc anc : string)
    (article question answer : list str) :
  row !! ac = Some (VStrs article) ->
  row !! qc = Some (VStrs question) ->
  row !! anc = Some (VStrs answer) ->
  exists row' s e starts ends rouges,
    find_golden_span sc row ac qc anc = Ok row'
    /\ row' !! "answer_token_start" = Some (VInt s)
    /\ row' !! "answer_token_end" = Some (VInt e)
    /\ row' !! "delta_token_starts" = Some (VInts starts)
    /\ row' !! "delta_token_ends" = Some (VInts ends)
    /\ row' !! "delta_rouges" = Some (VFloats rouges)
    /\ length starts = length ends
    /\ length ends = length rouges
    /\ ((starts = [] /\ s = (-1)%Z /\ e = (-1)%Z)
        \/ exists k, starts !! k = Some s /\ ends !! k = Some e).
Proof.
  intros Ha Hq Hn.
  destruct (find_golden_span_deltas sc row ac qc anc article question answer Ha Hq Hn)
    as (s & e & Hrun & Hcase).
  eexists _, s, e, _, _, _. split; [exact Hrun |].
  rewrite write_span_lookup_start, write_span_lookup_end, write_span_lookup_starts,
    write_span_lookup_ends, write_span_lookup_rouges.
  repeat (split; [reflexivity |]).
  split; [now rewrite !length_map |]. split; [now rewrite !length_map |].
  destruct Hcase as [(-> & -> & ->) | (k & c & Hk & -> & ->)]; [now left | right].
  exists k. now rewrite !list_lookup_fmap, Hk.
Qed.

Lemma locator_delta_arrays_witness :
  exists row' s e starts ends rouges,
    find_golden_span rouge_lcs twice_row "article_tokens" "question_tokens" "answer_tokens"
      = Ok row'
    /\ row' !! "answer_token_start" = Some (VInt s)
    /\ row' !! "answer_token_end" = Some (VInt e)
    /\ row' !! "delta_token_starts" = Some (VInts starts)
    /\ row' !! "delta_token_ends" = Some (VInts ends)
    /\ row' !! "delta_rouges" = Some (VFloats rouges)
    /\ length starts = length ends
    /\ length ends = length rouges
    /\ ((starts = [] /\ s = (-1)%Z /\ e = (-1)%Z)
        \/ exists k, starts !! k = Some s /\ ends !! k = Some e).
Proof.
  apply (locator_delta_arrays rouge_lcs twice_row "article_tokens" "question_tokens"
           "answer_tokens" (tk [1; 2; 3; 4; 1; 2; 7; 8]%N) (tk [7; 8]%N) (tk [1; 2]%N));
    reflexivity.
Defined.

(** X8. Every span recorded in the delta arrays lies inside the article, has
    between [len_a - 2] and [len_a + 2] tokens, where [len_a] is the number of
    answer tokens, and its text passed the prefilter. *)
Theorem locator_delta_spans (sc : Scorer) (row : Row) (ac qc anc : string)
    (article question answer : list str) :
  row !! ac = Some (VStrs article) ->
  row !! qc = Some (VStrs question) ->
  row !! anc = Some (VStrs answer) ->
  let len_p := Z.of_nat (length article) in
  let len_a := Z.of_nat (length answer) in
  exists row' starts ends,
    find_golden_span sc row ac qc anc = Ok row'
    /\ row' !! "delta_token_starts" = Some (VInts starts)
    /\ row' !! "delta_token_ends" = Some (VInts ends)
    /\ forall k s e, starts !! k = Some s -> ends !! k = Some e ->
         (0 <= s /\ s <= e /\ e < len_p
          /\ len_a - 2 <= e - s + 1 /\ e - s + 1 <= len_a + 2)%Z
         /\ passes_prefilter (cand_text article s (e - s + 1)) (strip (join answer)) = true.
Proof.
  intros Ha Hq Hn len_p len_a.
  destruct (find_golden_span_deltas sc row ac qc anc article question answer Ha Hq Hn)
    as (s0 & e0 & Hrun & _).
  eexists _, _, _. split; [exact Hrun |].
  rewrite write_span_lookup_starts, write_span_lookup_ends.
  split; [reflexivity |]. split; [reflexivity |].
  intros k s e Hs He. rewrite list_lookup_fmap in Hs, He.
  destruct (survivors article (Z.of_nat (length answer)) (strip (join answer)) !! k)
    as [[i t] |] eqn:Ek; [| discriminate].
  simpl in Hs, He. injection Hs as <-. injection He as <-.
  apply list_elem_of_lookup_2, elem_of_survivors in Ek as [Hb Hp].
  replace (i + t - 1 - i + 1)%Z with t by lia. fold len_p len_a in Hb.
  split; [lia | exact Hp].
Qed.

Lemma locator_delta_spans_witness :
  exists row' starts ends,
    find_golden_span rouge_lcs twice_row "article_tokens" "question_tokens" "answer_tokens"
      = Ok row'
    /\ row' !! "delta_token_starts" = Some (VInts starts)
    /\ row' !! "delta_token_ends" = Some (VInts ends)
    /\ forall k s e, starts !! k = Some s -> ends !! k = Some e ->
         (0 <= s /\ s <= e /\ e < 8 /\ 2 - 2 <= e - s + 1 /\ e - s + 1 <= 2 + 2)%Z
         /\ passes_prefilter (cand_text (tk [1; 2; 3; 4; 1; 2; 7; 8]%N) s (e - s + 1))
              (strip (join (tk [1; 2]%N))) = true.
Proof.
  apply (locator_delta_spans rouge_lcs twice_row "article_tokens" "question_tokens"
           "answer_tokens" (tk [1; 2; 3; 4; 1; 2; 7; 8]%N) (tk [7; 8]%N) (tk [1; 2]%N));
    reflexivity.
Defined.

(** ** Rows on which the Locator finds nothing *)

Lemma survivors_nil (article : list str) (len_a : Z) (ground : str) :
  (forall i t, (i, t) ∉ survivors article len_a ground) ->
  survivors article len_a ground = [].
Proof.
  intros Hnone. destruct (survivors article len_a ground) as [| [i t] l]; [reflexivity |].
  exfalso. apply (Hnone i t). now left.
Qed.

(** X9. When the answer has more tokens than the article, the Locator returns
    the sentinel and empty delta arrays: no start position is tried, although
    shorter variants of the answer might fit. *)
Theorem locator_answer_longer_than_article (sc : Scorer) (row : Row) (ac qc anc : string)
    (article question answer : list str) :
  row !! ac = Some (VStrs article) ->
  row !! qc = Some (VStrs question) ->
  row !! anc = Some (VStrs answer) ->
  length article < length answer ->
  find_golden_span sc row ac qc anc = Ok (write_span row (-1) (-1) [] [] []).
Proof.
  intros Ha Hq Hn Hlen.
  apply (find_golden_span_none sc row ac qc anc article question answer Ha Hq Hn).
  apply survivors_nil. intros i t Hin. apply elem_of_survivors in Hin. lia.
Qed.

Lemma locator_answer_longer_than_article_witness :
  find_golden_span rouge_lcs (labeled_row (tk [1; 2]%N) (tk [7]%N) (tk [1; 2; 3]%N))
    "article_tokens" "question_tokens" "answer_tokens"
  = Ok (write_span (labeled_row (tk [1; 2]%N) (tk [7]%N) (tk [1; 2; 3]%N))
          (-1) (-1) [] [] []).
Proof.
  apply (locator_answer_longer_than_article rouge_lcs _ "article_tokens" "question_tokens"
           "answer_tokens" (tk [1; 2]%N) (tk [7]%N) (tk [1; 2; 3]%N)).
  - reflexivity.
  - reflexivity.
  - reflexivity.
  - simpl. lia.
Defined.

Lemma prefilter_empty_answer (cand_ans : str) : passes_prefilter cand_ans [] = false.
Proof.
  unfold passes_prefilter, iou, char_set. simpl list_to_set.
  rewrite (right_absorb_L ∅ (∩)), size_empty.
  destruct (negb (Nat.max (size (list_to_set cand_ans : gset N)) 0 =? 0)); reflexivity.
Qed.

(** X10. When the answer text is empty (no answer tokens, or only whitespace
    tokens), no candidate passes the prefilter and the Locator returns the
    sentinel and empty delta arrays. *)
Theorem locator_empty_answer (sc : Scorer) (row : Row) (ac qc anc : string)
    (article question answer : list str) :
  row !! ac = Some (VStrs article) ->
  row !! qc = Some (VStrs question) ->
  row !! anc = Some (VStrs answer) ->
  strip (join answer) = [] ->
  find_golden_span sc row ac qc anc = Ok (write_span row (-1) (-1) [] [] []).
Proof.
  intros Ha Hq Hn Hempty.
  apply (find_golden_span_none sc row ac qc anc article question answer Ha Hq Hn).
  apply survivors_nil. intros i t Hin. apply elem_of_survivors in Hin as [_ Hp].
  rewrite Hempty, prefilter_empty_answer in Hp. discriminate.
Qed.

Lemma locator_empty_answer_witness :
  find_golden_span rouge_lcs (labeled_row (tk [1; 2]%N) (tk [7]%N) (tk [32; 32]%N))
    "article_tokens" "question_tokens" "answer_tokens"
  = Ok (write_span (labeled_row (tk [1; 2]%N) (tk [7]%N) (tk [32; 32]%N))
          (-1) (-1) [] [] []).
Proof.
  apply (locator_empty_answer rouge_lcs _ "article_tokens" "question_tokens"
           "answer_tokens" (tk [1; 2]%N) (tk [7]%N) (tk [32; 32]%N));
    reflexivity.
Defined.

(** ** Answers that occur in the article *)

Lemma prefilter_same_text (text : str) : text <> [] -> passes_prefilter text text = true.
Proof.
  intros Hne. unfold passes_prefilter, iou.
  rewrite (idemp_L (∩) (char_set text)), Nat.max_id.
  assert (Hsize : size (char_set text) <> 0).
  { destruct text as [| c text']; [congruence |]. intros Hz.
    apply size_empty_iff in Hz. unfold char_set in Hz. simpl in Hz. set_solver. }
  destruct (Nat.eqb_spec (size (char_set text)) 0) as [E | _]; [congruence |]. simpl.
  apply Qle_bool_iff. unfold Qle. cbn [Qnum Qden].
  destruct (size (char_set text)) as [| n]; [congruence |].
  rewrite <- Pos.of_nat_succ, Zpos_P_of_succ_nat. lia.
Qed.

(** X11. When the answer tokens occur as consecutive tokens of the article
    and the answer text is not empty, the Locator does not return the
    sentinel: it returns a span with [0 <= start <= end]. *)
Theorem locator_finds_verbatim_answer (sc : Scorer) (row : Row) (ac qc anc : string)
    (article question answer : list str) (i : nat) :
  row !! ac = Some (VStrs article) ->
  row !! qc = Some (VStrs question) ->
  row !! anc = Some (VStrs answer) ->
  i + length answer <= length article ->
  firstn (length answer) (skipn i article) = answer ->
  strip (join answer) <> [] ->
  exists row' s e,
    find_golden_span sc row ac qc anc = Ok row'
    /\ row' !! "answer_token_start" = Some (VInt s)
    /\ row' !! "answer_token_end" = Some (VInt e)
    /\ (0 <= s /\ s <= e /\ e < Z.of_nat (length article))%Z.
Proof.
  intros Ha Hq Hn Hfit Hocc Htext.
  assert (Hlen : 1 <= length answer).
  { destruct answer; [now contradiction Htext | simpl; lia]. }
  assert (Hin : (Z.of_nat i, Z.of_nat (length answer))
                ∈ survivors article (Z.of_nat (length answer)) (strip (join answer))).
  { apply elem_of_survivors. split; [lia |].
    unfold cand_text, slice. rewrite <- Nat2Z.inj_add, !Nat2Z.id.
    replace (i + length answer - i) with (length answer) by lia.
    rewrite Hocc. now apply prefilter_same_text. }
  destruct (find_golden_span_deltas sc row ac qc anc article question answer Ha Hq Hn)
    as (s & e & Hrun & [(Hnil & _) | (k & [i' t'] & Hk & -> & ->)]).
  { rewrite Hnil in Hin. now apply not_elem_of_nil in Hin. }
  eexists _, _, _. split; [exact Hrun |].
  rewrite write_span_lookup_start, write_span_lookup_end.
  split; [reflexivity |]. split; [reflexivity |].
  apply list_elem_of_lookup_2, elem_of_survivors in Hk as [Hb _]. simpl. lia.
Qed.

Lemma locator_finds_verbatim_answer_witness :
  exists row' s e,
    find_golden_span rouge_lcs twice_row "article_tokens" "question_tokens" "answer_tokens"
      = Ok row'
    /\ row' !! "answer_token_start" = Some (VInt s)
    /\ row' !! "answer_token_end" = Some (VInt e)
    /\ (0 <= s /\ s <= e /\ e < Z.of_nat (length (tk [1; 2; 3; 4; 1; 2; 7; 8]%N)))%Z.
Proof.
  apply (locator_finds_verbatim_answer rouge_lcs twice_row "article_tokens"
           "question_tokens" "answer_tokens" (tk [1; 2; 3; 4; 1; 2; 7; 8]%N) (tk [7; 8]%N)
           (tk [1; 2]%N) 4).
  - reflexivity.
  - reflexivity.
  - reflexivity.
  - simpl. lia.
  - reflexivity.
  - discriminate.
Defined.

(** ** Running the Locator again *)

Lemma find_golden_span_ok_columns (sc : Scorer) (row row' : Row) (ac qc anc : string) :
  find_golden_span sc row ac qc anc = Ok row' ->
  exists article question answer,
    row !! ac = Some (VStrs article) /\ row !! qc = Some (VStrs question)
    /\ row !! anc = Some (VStrs answer).
Proof.
  unfold find_golden_span. intros Hrun.
  destruct (get_strs row ac) as [article |] eqn:Ea; [| discriminate].
  destruct (get_strs row qc) as [question |] eqn:Eq; [| discriminate].
  destruct (get_strs row anc) as [answer |] eqn:En; [| discriminate].
  exists article, question, answer. auto using get_strs_ok.
Qed.

(** Two rows with the same three columns get the same five fields. *)
Lemma find_golden_span_ext (sc : Scorer) (row1 row2 row1' : Row) (ac qc anc : string)
    (article question answer : list str) :
  row1 !! ac = Some (VStrs article) -> row1 !! qc = Some (VStrs question) ->
  row1 !! anc = Some (VStrs answer) ->
  row2 !! ac = Some (VStrs article) -> row2 !! qc = Some (VStrs question) ->
  row2 !! anc = Some (VStrs answer) ->
  find_golden_span sc row1 ac qc anc = Ok row1' ->
  exists s e starts ends rouges,
    row1' = write_span row1 s e starts ends rouges
    /\ find_golden_span sc row2 ac qc anc = Ok (write_span row2 s e starts ends rouges).
Proof.
  intros Ha1 Hq1 Hn1 Ha2 Hq2 Hn2. unfold find_golden_span, get_strs.
  rewrite Ha1, Hq1, Hn1, Ha2, Hq2, Hn2. cbn [mbind result_bind].
  set (st := locate_scan sc article _ _ _).
  destruct (length (star_spans st) =? 0).
  - intros [= <-]. now exists (-1)%Z, (-1)%Z, [], [], [].
  - destruct (if em_count (inst_scores (rl_ans st)) <=? 1
              then Ok (argmax (inst_scores (rl_ans st)))
              else py_getitem (rl_q_idx st) (Z.of_nat (argmax (r_scores (rl_q st)))))
      as [best |]; [| discriminate].
    cbn [mbind result_bind].
    destruct (py_getitem (star_spans st) (Z.of_nat best)) as [s |]; [| discriminate].
    cbn [mbind result_bind].
    destruct (py_getitem (end_spans st) (Z.of_nat best)) as [e |]; [| discriminate].
    cbn [mbind result_bind]. intros [= <-].
    exists s, e, (star_spans st), (end_spans st), (inst_scores (rl_ans st)).
    split; [| f_equal]; exact (write_span_twice _ (-1) (-1) [] [] [] s e _ _ _).
Qed.

(** X12. Running the Locator on its own result changes nothing, provided the
    three columns it reads are not among the five it writes. *)
Theorem locator_idempotent (sc : Scorer) (row row' : Row) (ac qc anc : string) :
  let written := ["answer_token_start"; "answer_token_end"; "delta_token_starts";
                  "delta_token_ends"; "delta_rouges"] in
  ac ∉ written -> qc ∉ written -> anc ∉ written ->
  find_golden_span sc row ac qc anc = Ok row' ->
  find_golden_span sc row' ac qc anc = Ok row'.
Proof.
  intros written Hac Hqc Hanc Hrun.
  destruct (find_golden_span_ok_columns _ _ _ _ _ _ Hrun)
    as (article & question & answer & Ha & Hq & Hn).
  destruct (find_golden_span_ext sc row row row' ac qc anc article question answer
              Ha Hq Hn Ha Hq Hn Hrun) as (s & e & starts & ends & rouges & -> & _).
  destruct (find_golden_span_ext sc row (write_span row s e starts ends rouges)
              (write_span row s e starts ends rouges) ac qc anc article question answer
              Ha Hq Hn) as (s' & e' & starts' & ends' & rouges' & Heq & Hrun');
    try (rewrite write_span_frame by assumption; assumption); [exact Hrun |].
  rewrite Hrun', write_span_twice. now rewrite <- Heq.
Qed.

Lemma locator_idempotent_witness :
  find_golden_span rouge_lcs
    (write_span (labeled_row (tk [2]%N) (tk [7]%N) (tk [2]%N)) 0 0 [0%Z] [0%Z] [1%Q])
    "article_tokens" "question_tokens" "answer_tokens"
  = Ok (write_span (labeled_row (tk [2]%N) (tk [7]%N) (tk [2]%N)) 0 0 [0%Z] [0%Z] [1%Q]).
Proof.
  apply (locator_idempotent rouge_lcs (labeled_row (tk [2]%N) (tk [7]%N) (tk [2]%N))).
  - repeat (apply not_elem_of_cons; split; [discriminate |]). apply not_elem_of_nil.
  - repeat (apply not_elem_of_cons; split; [discriminate |]). apply not_elem_of_nil.
  - repeat (apply not_elem_of_cons; split; [discriminate |]). apply not_elem_of_nil.
  - vm_compute. reflexivity.
Defined.

(** ** Tables *)

Lemma df_apply_Forall2 (f : Row -> result Row) (df out : DataFrame) :
  df_apply f df = Ok out ->
  Forall2 (fun a b => b.1 = a.1 /\ f a.2 = Ok b.2) df out.
Proof.
  revert out. induction df as [| [ix row] df IH]; intros out; simpl.
  - intros [= <-]. constructor.
  - destruct (f row) as [row' | e] eqn:Ef; simpl; [| discriminate].
    destruct (df_apply f df) as [rest | e]; simpl; [| discriminate].
    intros [= <-]. constructor; [now split | now apply IH].
Qed.

Lemma Forall2_compose {A B C} (P : A -> B -> Prop) (Q : B -> C -> Prop)
    (la : list A) (lb : list B) (lc : list C) :
  Forall2 P la lb -> Forall2 Q lb lc ->
  Forall2 (fun a c => exists b, P a b /\ Q b c) la lc.
Proof.
  intros Hab. revert lc. induction Hab as [| a b la lb Hp _ IH]; intros lc Hbc.
  - inversion Hbc. constructor.
  - inversion Hbc as [| b' c lb' lc' Hq Hrest]; subst.
    constructor; [now exists b | now apply IH].
Qed.

(** X13. Each driver returns a table with the index of its input, hence with
    as many rows, for every number [W >= 1] of partitions. *)
Theorem orchestrator_keeps_index (sc : Scorer) (merge : DataFrame -> DataFrame -> DataFrame)
    (W : nat) (article_df qa_df sample_df out : DataFrame) (max_token_len : nat) :
  1 <= W ->
  (parallel_sample_article sc merge W article_df qa_df max_token_len = Ok out ->
   out.*1 = (merge article_df qa_df).*1 /\ length out = length (merge article_df qa_df))
  /\ (parallel_find_gold_span sc W sample_df = Ok out ->
      out.*1 = sample_df.*1 /\ length out = length sample_df).
Proof.
  intros HW. unfold parallel_sample_article, parallel_find_gold_span,
    apply_sample_article, apply_find_gold_span.
  rewrite !(split_apply_concat _ _ W HW).
  split; intros Hrun; apply df_apply_index in Hrun; (split; [exact Hrun |]);
    apply (f_equal length) in Hrun; now rewrite !length_fmap in Hrun.
Qed.

Lemma orchestrator_keeps_index_witness :
  (exists out : DataFrame,
     parallel_sample_article rouge_lcs inner_join 3 example_articles example_questions 9
       = Ok out
     /\ out.*1 = (inner_join example_articles example_questions).*1
     /\ length out = length (inner_join example_articles example_questions))
  /\ (exists out : DataFrame,
        parallel_find_gold_span rouge_lcs 3 (inner_join example_articles example_questions)
          = Ok out
        /\ out.*1 = (inner_join example_articles example_questions).*1
        /\ length out = length (inner_join example_articles example_questions)).
Proof.
  split.
  - destruct (returns_ok
                (parallel_sample_article rouge_lcs inner_join 3 example_articles
                   example_questions 9)) as [out Hrun]; [vm_compute; reflexivity |].
    exists out. split; [exact Hrun |].
    exact (proj1 (orchestrator_keeps_index rouge_lcs inner_join 3 example_articles
                    example_questions (inner_join example_articles example_questions)
                    out 9 ltac:(lia)) Hrun).
  - destruct (returns_ok
                (parallel_find_gold_span rouge_lcs 3
                   (inner_join example_articles example_questions))) as [out Hrun];
      [vm_compute; reflexivity |].
    exists out. split; [exact Hrun |].
    exact (proj2 (orchestrator_keeps_index rouge_lcs inner_join 3 example_articles
                    example_questions (inner_join example_articles example_questions)
                    out 9 ltac:(lia)) Hrun).
Defined.

(** ** Sampling, then locating *)

(** X14. In the table returned by sampling and then locating, every row
    carries a span that is the sentinel or lies inside that row's own
    (possibly truncated) article tokens; and where the joined row's article
    was above the budget and contained the marker, the row's article has at
    most [article_sample_len] tokens. *)
Theorem pipeline_span_in_sampled_article (sc : Scorer)
    (merge : DataFrame -> DataFrame -> DataFrame) (W : nat) (adf qadf out : DataFrame)
    (article_sample_len : nat) :
  1 <= W ->
  sample_and_locate sc merge W adf qadf article_sample_len = Ok out ->
  Forall2
    (fun joined r =>
       r.1 = joined.1
       /\ exists toks s e,
            r.2 !! "article_tokens" = Some (VStrs toks)
            /\ r.2 !! "answer_token_start" = Some (VInt s)
            /\ r.2 !! "answer_token_end" = Some (VInt e)
            /\ ((s = -1 /\ e = -1) \/ (0 <= s /\ s <= e /\ e < Z.of_nat (length toks)))%Z
            /\ forall tokens, joined.2 !! "article_tokens" = Some (VStrs tokens) ->
                 article_sample_len < length tokens ->
                 substrb [MARKER] (join tokens) = true ->
                 length toks <= article_sample_len)
    (merge adf qadf) out.
Proof.
  intros HW. unfold sample_and_locate.
  destruct (parallel_sample_article sc merge W adf qadf article_sample_len)
    as [sample_df |] eqn:Es; [| discriminate].
  cbn [mbind result_bind]. intros Hl.
  unfold parallel_sample_article, apply_sample_article in Es.
  unfold parallel_find_gold_span, apply_find_gold_span in Hl.
  rewrite (split_apply_concat _ _ W HW) in Es. rewrite (split_apply_concat _ _ W HW) in Hl.
  apply df_apply_Forall2 in Es, Hl.
  eapply Forall2_impl; [exact (Forall2_compose _ _ _ _ _ Es Hl) |].
  intros [ix0 row0] [ix row2] ([ix1 row1] & [Hi1 Hs] & [Hi2 Hf]). simpl in *.
  split; [congruence |].
  destruct (find_golden_span_ok_columns _ _ _ _ _ _ Hf)
    as (toks & question & answer & Ha & Hq & Hn).
  destruct (find_golden_span_deltas sc row1 _ _ _ toks question answer Ha Hq Hn)
    as (s & e & Hrun & Hcase).
  rewrite Hrun in Hf. injection Hf as <-.
  exists toks, s, e.
  rewrite write_span_lookup_start, write_span_lookup_end.
  rewrite write_span_frame
    by (repeat (apply not_elem_of_cons; split; [discriminate |]); apply not_elem_of_nil).
  split; [exact Ha |]. split; [reflexivity |]. split; [reflexivity |]. split.
  - destruct Hcase as [(_ & -> & ->) | (k & [i t] & Hk & -> & ->)]; [now left | right].
    apply list_elem_of_lookup_2, elem_of_survivors in Hk as [Hb _]. simpl. lia.
  - intros tokens Ht Hgt Hm.
    destruct (sample_article_ok_columns _ _ _ _ _ _ _ Hs)
      as (tokens' & flags & question' & Ht' & Hfl & Hq').
    rewrite Ht in Ht'. injection Ht' as <-.
    destruct (sample_article_cases _ _ _ _ _ _ _ _ _ _ Ht Hfl Hq' Hs)
      as [[Hle _] | [(_ & Hfalse & _) | (_ & _ & _ & Hrow1)]]; [lia | congruence |].
    rewrite Hrow1 in Ha.
    rewrite lookup_insert_ne, lookup_insert_eq in Ha by discriminate.
    injection Ha as <-. apply firstn_le_length.
Qed.

Lemma pipeline_span_in_sampled_article_witness :
  exists out : DataFrame,
    sample_and_locate rouge_lcs inner_join 3 example_articles example_questions 9 = Ok out
    /\ Forall2
         (fun joined r =>
            r.1 = joined.1
            /\ exists toks s e,
                 r.2 !! "article_tokens" = Some (VStrs toks)
                 /\ r.2 !! "answer_token_start" = Some (VInt s)
                 /\ r.2 !! "answer_token_end" = Some (VInt e)
                 /\ ((s = -1 /\ e = -1) \/ (0 <= s /\ s <= e /\ e < Z.of_nat (length toks)))%Z
                 /\ forall tokens, joined.2 !! "article_tokens" = Some (VStrs tokens) ->
                      9 < length tokens ->
                      substrb [MARKER] (join tokens) = true ->
                      length toks <= 9)
         (inner_join example_articles example_questions) out.
Proof.
  destruct (returns_ok
              (sample_and_locate rouge_lcs inner_join 3 example_articles example_questions 9))
    as [out Hrun]; [vm_compute; reflexivity |].
  exists out. split; [exact Hrun |].
  exact (pipeline_span_in_sampled_article rouge_lcs inner_join 3 example_articles
           example_questions out 9 ltac:(lia) Hrun).
Defined.

(** The example tables go through sampling and locating with three workers. *)
Example pipeline_run :
  (out ← sample_and_locate rouge_lcs inner_join 3 example_articles example_questions 9;
   Ok (map (fun r => (r.2 !! "answer_token_start", r.2 !! "answer_token_end")) out))
  = Ok [(Some (VInt 2), Some (VInt 2)); (Some (VInt 4), Some (VInt 4));
        (Some (VInt 0), Some (VInt 0))].
Proof. vm_compute. reflexivity. Qed.

(** ** [strip] *)

Lemma lstrip_starts_clean (s : str) : starts_clean (lstrip s).
Proof.
  induction s as [| c s IH]; simpl; [exact I |].
  destruct (is_space c) eqn:E; [exact IH | exact E].
Qed.

Lemma lstrip_id (s : str) : starts_clean s -> lstrip s = s.
Proof. destruct s as [| c s]; simpl; [reflexivity |]. now intros ->. Qed.

Lemma lstrip_suffix (s : str) : exists w, s = w ++ lstrip s.
Proof.
  induction s as [| c s [w IH]]; [now exists [] |]. simpl.
  destruct (is_space c); [exists (c :: w); simpl; now f_equal | now exists []].
Qed.

Lemma strip_fixed (s : str) : starts_clean s -> starts_clean (rev s) -> strip s = s.
Proof.
  intros Hs Hr. unfold strip. rewrite (lstrip_id s Hs), (lstrip_id (rev s) Hr).
  apply rev_involutive.
Qed.

Lemma strip_clean_ends (s : str) : starts_clean (strip s) /\ starts_clean (rev (strip s)).
Proof.
  unfold strip. rewrite rev_involutive. split; [| apply lstrip_starts_clean].
  destruct (lstrip_suffix (rev (lstrip s))) as [w Hw].
  destruct (lstrip (rev (lstrip s))) as [| c b] using rev_ind; [exact I |]. clear IHb.
  rewrite rev_app_distr. simpl.
  apply (f_equal (@rev N)) in Hw. rewrite rev_involutive, !rev_app_distr in Hw. simpl in Hw.
  pose proof (lstrip_starts_clean s) as Hc. rewrite Hw in Hc. exact Hc.
Qed.

Lemma strip_idempotent (s : str) : strip (strip s) = strip s.
Proof. destruct (strip_clean_ends s). now apply strip_fixed. Qed.

(** ** Token cleaning *)

Lemma nonempty_true (s : str) : nonempty s = true <-> s <> [].
Proof. unfold nonempty. destruct s; simpl; split; congruence. Qed.

(** The loop of [clean_tokens] from any state. *)
Lemma clean_tokens_fold (its : list (str * str)) (t f : list str) :
  fold_left
    (fun st it =>
       let token := strip it.1 in
       if nonempty token then (st.1 ++ [token], st.2 ++ [it.2]) else st)
    its (t, f)
  = (t ++ map (fun it => strip it.1) (filter (fun it => nonempty (strip it.1) = true) its),
     f ++ map snd (filter (fun it => nonempty (strip it.1) = true) its)).
Proof.
  revert t f. induction its as [| it its IH]; intros t f; simpl.
  - now rewrite !app_nil_r.
  - rewrite filter_cons. destruct (nonempty (strip it.1)) eqn:E.
    + rewrite decide_True by reflexivity. rewrite IH. simpl. now rewrite <- !app_assoc.
    + rewrite decide_False by discriminate. apply IH.
Qed.

Lemma clean_tokens_spec (tokens flags : list str) :
  clean_tokens tokens flags
  = (map (fun it => strip it.1)
         (filter (fun it => nonempty (strip it.1) = true) (zip tokens flags)),
     map snd (filter (fun it => nonempty (strip it.1) = true) (zip tokens flags))).
Proof. unfold clean_tokens. now rewrite clean_tokens_fold. Qed.

Lemma clean_tokens_shape (tokens flags : list str) :
  length (clean_tokens tokens flags).1 = length (clean_tokens tokens flags).2
  /\ Forall (fun t => t <> [] /\ strip t = t) (clean_tokens tokens flags).1.
Proof.
  rewrite clean_tokens_spec. simpl. split; [now rewrite !length_map |].
  apply Forall_forall. intros t Hin. apply list_elem_of_fmap in Hin as (it & -> & Hit).
  apply list_elem_of_filter in Hit as [Hne _].
  split; [now apply nonempty_true | apply strip_idempotent].
Qed.

(** X15. Token cleaning returns as many flags as tokens, whatever the input
    lengths; no returned token is empty and none starts or ends with
    whitespace. *)
Theorem clean_tokens_aligned (tokens flags : list str) :
  let cleaned := clean_tokens tokens flags in
  length cleaned.1 = length cleaned.2
  /\ Forall (fun t => t <> [] /\ strip t = t) cleaned.1.
Proof. intros cleaned. apply clean_tokens_shape. Qed.

Lemma clean_tokens_fixed (tokens flags : list str) :
  length tokens = length flags ->
  Forall (fun t => t <> [] /\ strip t = t) tokens ->
  clean_tokens tokens flags = (tokens, flags).
Proof.
  intros Hlen Hall. rewrite clean_tokens_spec.
  assert (Hf : filter (fun it : str * str => nonempty (strip it.1) = true) (zip tokens flags)
               = zip tokens flags).
  { revert flags Hlen. induction Hall as [| t tokens [Hne Hst] _ IH]; intros [| f flags] Hlen;
      try reflexivity; try discriminate.
    simpl. rewrite filter_cons. simpl. rewrite Hst.
    rewrite decide_True by (now apply nonempty_true). f_equal. apply IH.
    simpl in Hlen. lia. }
  rewrite Hf. f_equal.
  - transitivity ((zip tokens flags).*1).
    + apply map_ext_in. intros [t f] Hin. simpl.
      rewrite Forall_forall in Hall. apply Hall.
      apply in_map with (f := fst) in Hin. simpl in Hin.
      eapply elem_of_sublist; [| apply (sublist_zip_fst tokens flags)].
      apply list_elem_of_In. exact Hin.
    + apply fst_zip. lia.
  - apply snd_zip. lia.
Qed.

(** X16. Token cleaning is idempotent: cleaning its own result returns that
    result. *)
Theorem clean_tokens_idempotent (tokens flags : list str) :
  let cleaned := clean_tokens tokens flags in
  clean_tokens cleaned.1 cleaned.2 = cleaned.
Proof.
  intros cleaned. destruct (clean_tokens_shape tokens flags) as [Hlen Hall].
  fold cleaned in Hlen, Hall. rewrite (clean_tokens_fixed _ _ Hlen Hall).
  now destruct cleaned.
Qed.

(** X17. On a row, token cleaning changes only the two columns it is given:
    whenever it returns, every other column is the input's, and the two
    columns hold sequences of the same length. *)
Theorem clean_token_row_frame (row row' : Row) (token_col flag_col : string) :
  token_col <> flag_col ->
  clean_token_row row token_col flag_col = Ok row' ->
  (forall col : string, col <> token_col -> col <> flag_col -> row' !! col = row !! col)
  /\ exists tokens' flags',
       row' !! token_col = Some (VStrs tokens') /\ row' !! flag_col = Some (VStrs flags')
       /\ length tokens' = length flags'.
Proof.
  intros Hne. unfold clean_token_row.
  destruct (get_strs row token_col) as [tokens |]; [| discriminate].
  destruct (get_strs row flag_col) as [flags |]; [| discriminate].
  cbn [mbind result_bind]. intros [= <-]. split.
  - intros col Ht Hf. now rewrite !lookup_insert_ne by congruence.
  - eexists _, _. rewrite lookup_insert_ne, !lookup_insert_eq by congruence.
    split; [reflexivity |]. split; [reflexivity |]. apply clean_tokens_shape.
Qed.

Lemma clean_token_row_frame_witness :
  (forall col : string, col <> "article_tokens" -> col <> "article_flags" ->
     sample_row (tk [1; 2]%N) (tk [5; 6]%N) [[7%N]] !! col
     = sample_row [[1%N]; [32%N]; [32%N; 2%N]] (tk [5; 9; 6]%N) [[7%N]] !! col)
  /\ exists tokens' flags',
       sample_row (tk [1; 2]%N) (tk [5; 6]%N) [[7%N]] !! "article_tokens"
         = Some (VStrs tokens')
       /\ sample_row (tk [1; 2]%N) (tk [5; 6]%N) [[7%N]] !! "article_flags"
          = Some (VStrs flags')
       /\ length tokens' = length flags'.
Proof.
  apply (clean_token_row_frame (sample_row [[1%N]; [32%N]; [32%N; 2%N]] (tk [5; 9; 6]%N) [[7%N]])).
  - discriminate.
  - vm_compute. reflexivity.
Defined.

(** ** Segmentation with pyltp *)

Lemma cut_fold (segment : str -> list str) (n off : nat) (parts : list str)
    (acc : list str) :
  off + length parts = n ->
  fold_left
    (fun cut_res (it : nat * str) =>
       let cut_res := cut_res ++ segment it.2 in
       if negb (Z.of_nat it.1 =? Z.of_nat n - 1)%Z then cut_res ++ [[MARKER]] else cut_res)
    (zip (seq off (length parts)) parts) acc
  = acc ++ with_markers segment parts.
Proof.
  revert off acc. induction parts as [| part parts IH]; intros off acc Hn.
  - simpl. now rewrite app_nil_r.
  - simpl length. simpl seq. simpl zip_with. simpl fold_left.
    simpl in Hn. rewrite IH by lia. simpl with_markers.
    destruct parts as [| part' parts'].
    + simpl in Hn. destruct (Z.eqb_spec (Z.of_nat off) (Z.of_nat n - 1)) as [_ | Hne]; [| lia].
      simpl. now rewrite !app_nil_r.
    + simpl in Hn. destruct (Z.eqb_spec (Z.of_nat off) (Z.of_nat n - 1)) as [E | _]; [lia |].
      cbn [negb]. rewrite <- !app_assoc. reflexivity.
Qed.

Lemma cut_pyltp_tokens (segment : str -> list str) (postag : list str -> list str)
    (row : str) :
  (cut_pyltp segment postag row).1
  = if substrb [MARKER] row then with_markers segment (split_on MARKER row)
    else segment row.
Proof.
  unfold cut_pyltp. simpl. destruct (substrb [MARKER] row); [| reflexivity].
  unfold enumerate. now rewrite (cut_fold segment _ 0 _ []).
Qed.

Lemma split_on_nonempty (sep : N) (row : str) : split_on sep row <> [].
Proof.
  induction row as [| c row IH]; simpl; [discriminate |].
  destruct (c =? sep)%N; [discriminate |]. destruct (split_on sep row); [contradiction | discriminate].
Qed.

Lemma rejoin_split_on (sep : N) (row : str) : rejoin sep (split_on sep row) = row.
Proof.
  induction row as [| c row IH]; [reflexivity |]. simpl split_on.
  pose proof (split_on_nonempty sep row) as Hne.
  destruct (N.eqb_spec c sep) as [-> | _].
  - destruct (split_on sep row) as [| p ps]; [contradiction |].
    simpl rejoin at 1. simpl. f_equal. exact IH.
  - destruct (split_on sep row) as [| p ps]; [contradiction |].
    simpl in IH |- *. now f_equal.
Qed.

Lemma join_with_markers (segment : str -> list str) (parts : list str) :
  (forall s, join (segment s) = s) ->
  join (with_markers segment parts) = rejoin MARKER parts.
Proof.
  intros Hseg. unfold join in *. induction parts as [| part parts IH]; [reflexivity |].
  simpl. rewrite concat_app, Hseg. f_equal.
  destruct parts as [| part' parts']; [reflexivity |]. simpl concat. simpl. f_equal. exact IH.
Qed.

(** X18. When the segmentor only cuts (the tokens of a text, joined, are that
    text), so does [_cut]: the tokens it returns, joined, are the row, whether
    or not the row contains the marker. *)
Theorem cut_pyltp_preserves_text (segment : str -> list str) (postag : list str -> list str)
    (row : str) :
  (forall s, join (segment s) = s) ->
  join (cut_pyltp segment postag row).1 = row.
Proof.
  intros Hseg. rewrite cut_pyltp_tokens. destruct (substrb [MARKER] row); [| apply Hseg].
  rewrite join_with_markers by exact Hseg. apply rejoin_split_on.
Qed.

Lemma cut_pyltp_preserves_text_witness :
  join (cut_pyltp (map (fun c => [c])) (map (fun _ => [110%N]))
          [20013; 22269; MARKER; 32463; 27982]%N).1
  = [20013; 22269; MARKER; 32463; 27982]%N.
Proof.
  apply cut_pyltp_preserves_text.
  intros s. unfold join. induction s as [| c s IH]; [reflexivity |]. simpl. now f_equal.
Defined.

Lemma split_on_two_parts (sep : N) (row : str) :
  In sep row -> exists p q ps, split_on sep row = p :: q :: ps.
Proof.
  induction row as [| c row IH]; [contradiction |]. intros Hin. simpl split_on.
  pose proof (split_on_nonempty sep row) as Hne.
  destruct (N.eqb_spec c sep) as [-> | Hc].
  - destruct (split_on sep row) as [| q ps]; [contradiction |]. now exists [], q, ps.
  - destruct Hin as [-> | Hin]; [congruence |].
    destruct (IH Hin) as (p & q & ps & ->). now exists (c :: p), q, ps.
Qed.

Lemma clean_tokens_keeps (tokens flags : list str) (t : str) :
  length flags = length tokens ->
  In t tokens -> strip t = t -> t <> [] ->
  In t (clean_tokens tokens flags).1.
Proof.
  intros Hlen Hin Hst Hne. rewrite clean_tokens_spec. simpl.
  apply list_elem_of_In in Hin. apply list_elem_of_lookup in Hin as [i Hi].
  destruct (lookup_lt_is_Some_2 flags i) as [f Hf].
  { rewrite Hlen. eapply lookup_lt_Some. exact Hi. }
  apply list_elem_of_In. apply list_elem_of_fmap. exists (t, f). split; [now simpl |].
  apply list_elem_of_filter. simpl. split.
  - rewrite Hst. now apply nonempty_true.
  - apply list_elem_of_lookup. exists i. apply lookup_zip_with_Some. now exists t, f.
Qed.

(** X19. Segmenting a merged article (title, marker, content) with pyltp and
    cleaning the tokens always leaves a marker token, whatever the segmentor
    does, provided the tagger returns one flag per token; the Sampler's test
    for an article without marker is then never true. *)
Theorem pyltp_article_has_marker (segment : str -> list str) (postag : list str -> list str)
    (title content : str) :
  (forall tokens, length (postag tokens) = length tokens) ->
  let cut := cut_pyltp segment postag (merge_article title content) in
  let cleaned := clean_tokens cut.1 cut.2 in
  In [MARKER] cleaned.1 /\ substrb [MARKER] (join cleaned.1) = true.
Proof.
  intros Htag cut cleaned.
  assert (Hin : In [MARKER] cleaned.1); [| split; [exact Hin | now apply marker_token_in_text]].
  assert (Hrow : In MARKER (merge_article title content)).
  { unfold merge_article. apply in_or_app. right. now left. }
  unfold cleaned. apply clean_tokens_keeps; [apply Htag | | reflexivity | discriminate].
  unfold cut. rewrite cut_pyltp_tokens.
  rewrite (proj2 (substrb_single MARKER _) Hrow).
  destruct (split_on_two_parts MARKER _ Hrow) as (p & q & ps & ->).
  simpl. apply in_or_app. right. now left.
Qed.

Lemma pyltp_article_has_marker_witness :
  let cut := cut_pyltp (map (fun c => [c])) (map (fun _ => [110%N]))
               (merge_article [20013; 22269]%N [32463; 27982]%N) in
  let cleaned := clean_tokens cut.1 cut.2 in
  In [MARKER] cleaned.1 /\ substrb [MARKER] (join cleaned.1) = true.
Proof.
  apply pyltp_article_has_marker. intros tokens. apply length_map.
Defined.

(** ** Text normalisation *)

Lemma sub_class_app (cls : N -> bool) (repl s1 s2 : str) :
  sub_class cls repl (s1 ++ s2) = sub_class cls repl s1 ++ sub_class cls repl s2.
Proof. unfold sub_class. apply flat_map_app. Qed.

Lemma sub_class_kills (cls : N -> bool) (repl s : str) (b : N) :
  cls b = true -> ~ In b repl -> ~ In b (sub_class cls repl s).
Proof.
  intros Hb Hr Hin. unfold sub_class in Hin. apply in_flat_map in Hin as (c & _ & Hc).
  destruct (cls c) eqn:E; [contradiction |].
  destruct Hc as [-> | []]. congruence.
Qed.

Lemma sub_class_keeps_out (cls : N -> bool) (repl s : str) (b : N) :
  ~ In b s -> ~ In b repl -> ~ In b (sub_class cls repl s).
Proof.
  intros Hs Hr Hin. unfold sub_class in Hin. apply in_flat_map in Hin as (c & Hcs & Hc).
  destruct (cls c); [contradiction |]. destruct Hc as [-> | []]. contradiction.
Qed.

Lemma drop_space_runs_incl (run s : str) (b : N) :
  In b (drop_space_runs run s) -> In b run \/ In b s.
Proof.
  revert run. induction s as [| c s IH]; intros run Hin; simpl in Hin.
  - destruct (length run <? 2); [now left | contradiction].
  - destruct (is_space c).
    + apply IH in Hin as [Hin | Hin]; [| right; now right].
      apply in_app_or in Hin as [Hin | [-> | []]]; [now left | right; now left].
    + apply in_app_or in Hin as [Hin | [-> | Hin]].
      * destruct (length run <? 2); [now left | contradiction].
      * right. now left.
      * apply IH in Hin as [[] | Hin]. right. now right.
Qed.

Lemma drop_keeps_out (s : str) (b : N) : ~ In b s -> ~ In b (drop_space_runs [] s).
Proof. intros Hs Hin. apply drop_space_runs_incl in Hin as [[] | Hin]. contradiction. Qed.

Lemma lstrip_incl (s : str) (b : N) : In b (lstrip s) -> In b s.
Proof.
  induction s as [| c s IH]; simpl; [auto |].
  destruct (is_space c); [intros H; right; now apply IH | auto].
Qed.

Lemma strip_incl (s : str) (b : N) : In b (strip s) -> In b s.
Proof.
  unfold strip. intros Hin. apply in_rev, lstrip_incl, in_rev, lstrip_incl in Hin. exact Hin.
Qed.

Lemma removelast_incl (s : str) (b : N) : In b (removelast s) -> In b s.
Proof.
  induction s as [| c s IH]; simpl; [auto |].
  destruct s as [| d s]; [contradiction |]. intros [-> | Hin]; [now left | right; now apply IH].
Qed.

Lemma clean_end_keeps_out (s : str) (b : N) :
  ~ In b s ->
  ~ In b (match last s with
          | Some c => if (c =? MARKER)%N then strip (removelast s) else s
          | None => s
          end).
Proof.
  intros Hs. destruct (last s) as [c |]; [| exact Hs].
  destruct (c =? MARKER)%N; [| exact Hs].
  intros Hin. apply Hs. now apply removelast_incl, strip_incl.
Qed.

Ltac chase_out :=
  first
    [ apply sub_class_kills; [reflexivity | simpl; intuition discriminate]
    | apply sub_class_keeps_out; [chase_out | simpl; intuition discriminate]
    | apply drop_keeps_out; chase_out ].

(** X20. The text [clean] returns contains none of the characters it
    normalises: no ideographic space, tab, CR, LF, curly double quote,
    full-width digit or full-width full stop. *)
Theorem clean_removes_normalized (row : str) (c : N) :
  In c normalized_away -> ~ In c (clean row).
Proof.
  intros Hc. unfold clean. apply clean_end_keeps_out.
  unfold normalized_away in Hc. simpl in Hc.
  repeat (destruct Hc as [<- | Hc]; [chase_out |]). contradiction.
Qed.

Lemma clean_removes_normalized_witness :
  ~ In 65297%N (clean [65297; 32; 32; 9; 97; 8220; MARKER]%N).
Proof. apply clean_removes_normalized. simpl. tauto. Defined.

(** *** Whitespace runs *)

Lemma sub_class_id (cls : N -> bool) (repl s : str) :
  Forall (fun c => cls c = false) s -> sub_class cls repl s = s.
Proof.
  induction 1 as [| c s Hc _ IH]; [reflexivity |].
  unfold sub_class in *. simpl. rewrite Hc, IH. reflexivity.
Qed.

Lemma drop_space_runs_text (run a s : str) :
  Forall (fun c => is_space c = false) a -> a <> [] ->
  drop_space_runs run (a ++ s)
  = (if length run <? 2 then run else []) ++ a ++ drop_space_runs [] s.
Proof.
  intros Ha. revert run. induction Ha as [| c a Hc Ha IH]; intros run Hne; [congruence |].
  simpl. rewrite Hc. f_equal. f_equal.
  destruct a as [| d a']; [reflexivity |].
  rewrite IH by discriminate. reflexivity.
Qed.

Lemma drop_space_runs_spaces (run w s : str) :
  Forall (fun c => is_space c = true) w ->
  drop_space_runs run (w ++ s) = drop_space_runs (run ++ w) s.
Proof.
  intros Hw. revert run. induction Hw as [| c w Hc _ IH]; intros run.
  - now rewrite app_nil_r.
  - simpl. rewrite Hc, IH, <- app_assoc. reflexivity.
Qed.

Lemma drop_space_runs_plain (a : str) :
  Forall (fun c => is_space c = false) a -> drop_space_runs [] a = a.
Proof.
  intros Ha. destruct a as [| c a']; [reflexivity |].
  rewrite <- (app_nil_r (c :: a')) at 1.
  rewrite drop_space_runs_text by (assumption || discriminate). simpl. now rewrite app_nil_r.
Qed.

Lemma drop_space_runs_between (a w b : str) :
  Forall (fun c => is_space c = false) a ->
  Forall (fun c => is_space c = true) w ->
  Forall (fun c => is_space c = false) b ->
  2 <= length w ->
  drop_space_runs [] (a ++ w ++ b) = a ++ b.
Proof.
  intros Ha Hw Hb Hlen.
  assert (Hrest : drop_space_runs [] (w ++ b) = b).
  { rewrite drop_space_runs_spaces by exact Hw. simpl.
    destruct b as [| c b'].
    - simpl. destruct (Nat.ltb_spec (length w) 2); [lia | reflexivity].
    - rewrite <- (app_nil_r (c :: b')) at 1.
      rewrite drop_space_runs_text by (assumption || discriminate).
      destruct (Nat.ltb_spec (length w) 2); [lia |]. simpl. now rewrite app_nil_r. }
  destruct a as [| c a']; [exact Hrest |].
  rewrite drop_space_runs_text by (assumption || discriminate). simpl. now rewrite Hrest.
Qed.

Lemma plain_spec (c : N) :
  plain c = true ->
  is_space c = false /\ existsb (N.eqb c) normalized_away = false /\ (c =? MARKER)%N = false.
Proof.
  unfold plain. rewrite negb_true_iff, !orb_false_iff. tauto.
Qed.

Lemma plain_not_class (c d : N) :
  plain c = true -> In d normalized_away -> (d =? c)%N = false.
Proof.
  intros Hp Hd. apply plain_spec in Hp as (_ & Hn & _).
  destruct (N.eqb_spec d c) as [-> | _]; [| reflexivity].
  exfalso. assert (Ht : existsb (N.eqb c) normalized_away = true); [| congruence].
  apply existsb_exists. exists c. split; [exact Hd | apply N.eqb_refl].
Qed.

Lemma plain_class_pair (c d1 d2 : N) :
  plain c = true -> In d1 normalized_away -> In d2 normalized_away ->
  ((c =? d1) || (c =? d2))%N = false.
Proof.
  intros Hp H1 H2. rewrite (N.eqb_sym c d1), (N.eqb_sym c d2).
  now rewrite (plain_not_class c d1), (plain_not_class c d2).
Qed.

(** X21. [clean] deletes a run of two or more whitespace characters
    altogether, joining the texts on both sides: for texts [a] and [b] of
    characters it otherwise leaves alone, [clean (a ++ run ++ b)] is
    [a ++ b]. *)
Theorem clean_deletes_whitespace_runs (a run b : str) :
  Forall (fun c => plain c = true) a ->
  Forall (fun c => plain c = true) b ->
  Forall (fun c => is_space c = true) run ->
  2 <= length run ->
  clean (a ++ run ++ b) = a ++ b.
Proof.
  intros Ha Hb Hrun Hlen.
  assert (Hab : Forall (fun c => plain c = true) (a ++ b)) by (now apply Forall_app).
  assert (Hsp : forall l, Forall (fun c => plain c = true) l ->
                          Forall (fun c => is_space c = false) l).
  { intros l Hl. eapply Forall_impl; [exact Hl |]. intros c Hc. now apply plain_spec in Hc. }
  assert (Hpair : forall l d1 d2, Forall (fun c => plain c = true) l ->
            In d1 normalized_away -> In d2 normalized_away ->
            Forall (fun c => ((c =? d1) || (c =? d2))%N = false) l).
  { intros l d1 d2 Hl H1 H2. eapply Forall_impl; [exact Hl |].
    intros c Hc. now apply plain_class_pair. }
  assert (Hone : forall l d, Forall (fun c => plain c = true) l ->
            In d normalized_away -> Forall (fun c => (d =? c)%N = false) l).
  { intros l d Hl Hd. eapply Forall_impl; [exact Hl |]. intros c Hc. now apply plain_not_class. }
  unfold clean.
  rewrite !sub_class_app.
  rewrite (sub_class_id _ _ a) by (apply Hpair; [exact Ha | simpl; tauto | simpl; tauto]).
  rewrite (sub_class_id _ _ b) by (apply Hpair; [exact Hb | simpl; tauto | simpl; tauto]).
  rewrite drop_space_runs_between; try (now apply Hsp).
  2: { unfold sub_class. apply Forall_forall. intros c Hc.
       apply list_elem_of_In, in_flat_map in Hc as (d & Hd & Hc).
       destruct ((d =? 12288) || (d =? 9))%N.
       - destruct Hc as [<- | []]. reflexivity.
       - destruct Hc as [<- | []]. rewrite Forall_forall in Hrun. apply Hrun.
         now apply list_elem_of_In. }
  2: { unfold sub_class. clear -Hlen. induction run as [| c run IH]; [simpl in Hlen; lia |].
       assert (Hge : forall l : str, length l <= length (flat_map
                 (fun c => if ((c =? 12288) || (c =? 9))%N then [32%N] else [c]) l)).
       { clear. induction l as [| c l IH]; simpl; [lia |].
         destruct ((c =? 12288) || (c =? 9))%N; simpl; lia. }
       specialize (Hge (c :: run)). lia. }
  rewrite (sub_class_id _ _ (a ++ b)) by (apply Hpair; [exact Hab | simpl; tauto | simpl; tauto]).
  rewrite (sub_class_id _ _ (a ++ b)) by (apply Hpair; [exact Hab | simpl; tauto | simpl; tauto]).
  rewrite !(sub_class_id (N.eqb _) _ (a ++ b)) by (apply Hone; [exact Hab | simpl; tauto]).
  destruct (last (a ++ b)) as [c |] eqn:El; [| reflexivity].
  assert (Hc : plain c = true).
  { rewrite Forall_forall in Hab. apply Hab. apply last_Some in El as [l' ->].
    apply elem_of_app. right. now left. }
  apply plain_spec in Hc as (_ & _ & ->). reflexivity.
Qed.

Lemma clean_deletes_whitespace_runs_witness :
  clean ([97; 98] ++ [32; 9] ++ [99])%N = ([97; 98] ++ [99])%N.
Proof.
  apply clean_deletes_whitespace_runs.
  - repeat constructor.
  - repeat constructor.
  - repeat constructor.
  - simpl. lia.
Defined.

(** ** The answer column *)

Lemma py_getitem_last {A} (l : list A) (x : A) :
  last l = Some x -> py_getitem l (-1) = Ok x.
Proof.
  intros Hl. apply (py_getitem_from_end l 1).
  - apply last_Some in Hl as [l' ->]. rewrite length_app. simpl. lia.
  - rewrite last_lookup in Hl. now replace (length l - 1) with (pred (length l)) by lia.
Qed.

Lemma trim_tail_nonempty (answer : str) :
  answer <> [] -> trim_tail answer = Ok (trimmed_tail answer).
Proof.
  intros Hne. unfold trim_tail, trimmed_tail.
  destruct (last answer) as [c |] eqn:El.
  - now rewrite (py_getitem_last _ _ El).
  - apply last_None in El. congruence.
Qed.

Lemma trim_head_cases (answer : str) :
  (answer = [] /\ trim_head answer = Raise IndexError)
  \/ (answer <> [] /\ exists out, trim_head answer = Ok out).
Proof.
  destruct answer as [| c answer]; [now left |]. right. split; [discriminate |].
  unfold trim_head. change (py_getitem (c :: answer) 0) with (Ok c : result N).
  cbn [mbind result_bind]. eauto.
Qed.

Lemma comprehension_ok {A B} (f : A -> result B) (g : A -> B) (l : list A) :
  Forall (fun x => f x = Ok (g x)) l -> comprehension f l = Ok (map g l).
Proof.
  induction 1 as [| x l Hx _ IH]; [reflexivity |]. simpl. now rewrite Hx, IH.
Qed.

Lemma comprehension_raises {A B} (f : A -> result B) (l : list A) (e : exn) :
  comprehension f l = Raise e -> exists x, In x l /\ f x = Raise e.
Proof.
  induction l as [| x l IH]; simpl; [discriminate |].
  destruct (f x) as [y | e'] eqn:Ex; simpl.
  - destruct (comprehension f l) as [ys | e'']; simpl; [discriminate |].
    intros [= <-]. destruct (IH eq_refl) as (x' & Hin & Hx'). exists x'. auto.
  - intros [= <-]. exists x. auto.
Qed.

Lemma comprehension_all_ok {A B} (f : A -> result B) (l : list A) :
  Forall (fun x => exists y, f x = Ok y) l -> exists ys, comprehension f l = Ok ys.
Proof.
  induction 1 as [| x l [y Hx] _ [ys IH]]; [now exists [] |].
  simpl. rewrite Hx, IH. simpl. eauto.
Qed.

Lemma assign_where_length {A} (mask : A -> bool) (col values : list A) :
  length (assign_where mask col values) = length col.
Proof.
  revert values. induction col as [| x col IH]; intros values; simpl; [reflexivity |].
  destruct (mask x); [destruct values |]; simpl; now rewrite IH.
Qed.

Lemma trimmed_tail_empty (answer : str) :
  answer <> [] -> (trimmed_tail answer = [] <-> vanishes answer = true).
Proof.
  intros Hne. unfold trimmed_tail, vanishes.
  destruct (last answer) as [c |] eqn:El.
  - destruct (in_drop_list c); simpl.
    + unfold nonempty. rewrite negb_involutive.
      destruct (strip (removelast answer)); simpl; split; congruence.
    + split; [congruence | discriminate].
  - split; [congruence | discriminate].
Qed.

(** X22. The treatment of the answer column raises exactly when some answer,
    once cleaned and stripped, is a character of [drop_list] preceded by
    nothing but whitespace (a lone full-width comma, say): trimming its end
    leaves the empty string, whose first character is then read.  The
    exception is [IndexError]; otherwise the column keeps its length. *)
Theorem clean_answers_raises_iff (col : list str) :
  (forall e, clean_answers col = Raise e
             <-> e = IndexError
                 /\ exists a, In a col /\ vanishes (strip (clean a)) = true)
  /\ (forall out, clean_answers col = Ok out -> length out = length col).
Proof.
  unfold clean_answers.
  set (col' := map strip (map clean col)).
  set (answers := filter (fun a => nonempty a = true) col').
  assert (Hans : forall a, In a answers <-> a <> [] /\ exists a0, In a0 col /\ a = strip (clean a0)).
  { intros a. unfold answers, col'. rewrite <- list_elem_of_In, list_elem_of_filter.
    rewrite nonempty_true, list_elem_of_In, map_map, in_map_iff. firstorder. }
  assert (Htail : comprehension trim_tail answers = Ok (map trimmed_tail answers)).
  { apply comprehension_ok. apply Forall_forall. intros a Ha.
    apply trim_tail_nonempty. now apply list_elem_of_In, Hans in Ha as [Hne _]. }
  rewrite Htail. cbn [mbind result_bind].
  split.
  - intros e. split.
    + destruct (comprehension trim_head (map trimmed_tail answers)) as [out | e'] eqn:Eh;
        [discriminate |].
      cbn [mbind result_bind]. intros [= <-].
      apply comprehension_raises in Eh as (x & Hin & Hx).
      destruct (trim_head_cases x) as [[-> Hr] | [_ [out Hok]]]; [| congruence].
      split; [congruence |].
      apply in_map_iff in Hin as (a & Ha & Hin). apply Hans in Hin as (Hne & a0 & Hin0 & ->).
      exists a0. split; [exact Hin0 |]. now apply trimmed_tail_empty.
    + intros (-> & a0 & Hin0 & Hv).
      assert (Hne : strip (clean a0) <> []).
      { intros E. rewrite E in Hv. discriminate. }
      assert (Hin : In [] (map trimmed_tail answers)).
      { apply in_map_iff. exists (strip (clean a0)). split.
        - now apply trimmed_tail_empty.
        - apply Hans. split; [exact Hne |]. now exists a0. }
      destruct (comprehension trim_head (map trimmed_tail answers)) as [out | e'] eqn:Eh.
      * exfalso. clear -Hin Eh. revert out Eh.
        induction (map trimmed_tail answers) as [| x l IH]; intros out Eh; [contradiction |].
        simpl in Eh. destruct Hin as [-> | Hin]; [discriminate |].
        destruct (trim_head x); simpl in Eh; [| discriminate].
        destruct (comprehension trim_head l) eqn:El; simpl in Eh; [| discriminate].
        eapply IH; [exact Hin | reflexivity].
      * cbn [mbind result_bind]. f_equal.
        apply comprehension_raises in Eh as (x & _ & Hx).
        destruct (trim_head_cases x) as [[_ Hr] | [_ [out Hok]]]; congruence.
  - intros out. destruct (comprehension trim_head (map trimmed_tail answers)); [| discriminate].
    cbn [mbind result_bind]. intros [= <-].
    rewrite assign_where_length. unfold col'. now rewrite !length_map.
Qed.

(** An answer that is a lone full-width comma makes the whole column fail. *)
Example clean_answers_lone_comma :
  clean_answers [[97; 98]; [65292]]%N = Raise IndexError
  /\ clean_answers [[97; 98; 65292]; []; [12290; 99]]%N = Ok [[97; 98]; []; [99]]%N.
Proof. vm_compute. split; reflexivity. Qed.

(** ** Sampling again *)

(** X23. Every sentence the Sampler detects has at least two tokens
    (fragments of one token, such as a marker that follows a marker, are
    dropped), and there are as many flag sequences and as many scores as
    sentences. *)
Theorem sampler_sentences_shape (sc : Scorer) (tokens flags : list str) (question : str) :
  let st := split_sentences sc tokens flags question in
  Forall (fun s => 2 <= length s) (sentences st)
  /\ length (sentences_f st) = length (sentences st)
  /\ length (r_scores (rl st)) = length (sentences st).
Proof.
  intros st. destruct (split_sentences_inv sc tokens flags question) as [Hf Hr _ _ _ H2].
  auto.
Qed.

(** X24. Sampling is idempotent on articles that are within the budget or
    contain the marker: when the Sampler returns on such a row, it returns its
    result unchanged when run on that result (the three columns being
    distinct). *)
Theorem sampler_idempotent (sc : Scorer) (row row' : Row) (tc fc qc : string) (max : nat)
    (tokens : list str) :
  tc <> fc -> qc <> tc -> qc <> fc ->
  row !! tc = Some (VStrs tokens) ->
  length tokens <= max \/ substrb [MARKER] (join tokens) = true ->
  sample_article sc row tc fc qc max = Ok row' ->
  sample_article sc row' tc fc qc max = Ok row'.
Proof.
  intros Htf Hqt Hqf Ht Hcase Hrun.
  destruct (sample_article_ok_columns _ _ _ _ _ _ _ Hrun)
    as (tokens' & flags & question & Ht' & Hf & Hq).
  rewrite Ht in Ht'. injection Ht' as <-.
  destruct (sample_article_cases _ _ _ _ _ _ _ _ _ _ Ht Hf Hq Hrun)
    as [[_ ->] | [(Hgt & Hfalse & _) | (_ & _ & _ & ->)]].
  - exact Hrun.
  - destruct Hcase as [Hle | Hm]; [lia | congruence].
  - eapply sample_article_below.
    + rewrite lookup_insert_ne, lookup_insert_eq by congruence. reflexivity.
    + rewrite lookup_insert_eq. reflexivity.
    + rewrite !lookup_insert_ne by congruence. exact Hq.
    + apply firstn_le_length.
Qed.

Lemma sampler_idempotent_witness :
  sample_article rouge_lcs
    (sample_row (tk [1; MARKER; 2; MARKER; 3; MARKER; 4; MARKER]%N)
                (tk [5; 6; 5; 6; 5; 6; 5; 6]%N) [[7%N]])
    "article_tokens" "article_flags" "question_tokens" 9
  = Ok (sample_row (tk [1; MARKER; 2; MARKER; 3; MARKER; 4; MARKER]%N)
                   (tk [5; 6; 5; 6; 5; 6; 5; 6]%N) [[7%N]]).
Proof.
  apply (sampler_idempotent rouge_lcs (sample_row five_sentences five_flags [[7%N]]) _
           "article_tokens" "article_flags" "question_tokens" 9 five_sentences).
  - discriminate.
  - discriminate.
  - discriminate.
  - reflexivity.
  - right. reflexivity.
  - vm_compute. reflexivity.
Defined.
